(** * CAT_Vehicle: the AndrewNet evaluation driver and the shadows_model utilities

    A shallow embedding of
    - [src/AndrewNet/test.py]      (regime-A evaluation, module initialisation),
    - [src/AndrewNet/andrewnet.py] (command-line dispatch, [train_model]),
    - [src/shadows_model/model.py] (GtsrbCNN shapes, [transform_image],
                                    [gen_extra_data]),
    followed by the properties established about them.

    Conventions.  Python [int] is [Z].  A Python [float] is a double: a finite
    double is the rational [Q] it denotes, and the float arithmetic of
    test.py and andrewnet.py rounds each exact result to the nearest double
    ([double]); the numpy arithmetic of model.py on its random draws is kept
    exact.  [str] is [string]; a Python list or a one-dimensional array is a
    [list], indexed with stdpp's [!!] and updated with [<[i:=x]>].  A Python
    exception is a [Raise] in the [result] type, and a function with side
    effects is a state transformer [M S A].  Calls that leave the program
    (file system, torch, the attack) append an [event] to the log of the
    process, so that the order of effects can be stated. *)

From Stdlib Require Import ZArith QArith Qabs Qround Lia Lqa List Permutation.
From stdpp Require Import list strings gmap pretty.

Open Scope Z_scope.

(* ===================================================================== *)
(** * Part I: definitions                                                 *)
(* ===================================================================== *)

(** ** Python runtime: exceptions, effects, numbers, strings *)

Inductive exn : Type :=
| IndexError
| KeyError
| ZeroDivisionError
| TypeError
| AttributeError
| ValueError
| RuntimeError
| SystemExit
| OSError
| OverflowError.

Inductive result (A : Type) : Type :=
| Ok (a : A)
| Raise (e : exn).
Arguments Ok {A} a.
Arguments Raise {A} e.

(** A computation over a state [S]: the state survives an exception, as the
    effects already performed by a Python program survive its traceback. *)
Definition M (S A : Type) : Type := S -> result A * S.

Definition ret {S A} (a : A) : M S A := fun s => (Ok a, s).

Definition bind {S A B} (c : M S A) (k : A -> M S B) : M S B :=
  fun s => match c s with
           | (Ok a, s') => k a s'
           | (Raise e, s') => (Raise e, s')
           end.

Definition raise {S A} (e : exn) : M S A := fun s => (Raise e, s).

Definition lift {S A} (r : result A) : M S A := fun s => (r, s).

Notation "x <- c1 ;; c2" := (bind c1 (fun x => c2))
  (at level 100, c1 at next level, right associativity).
Notation "c1 ;; c2" := (bind c1 (fun _ => c2))
  (at level 100, right associativity).

(** [xs[index]] for a non-negative index. *)
Definition getitem {S A} (xs : list A) (index : nat) : M S A :=
  match xs !! index with
  | Some x => ret x
  | None => raise IndexError
  end.

(** [xs[-1]]. *)
Definition getitem_last {S A} (xs : list A) : M S A :=
  match last xs with
  | Some x => ret x
  | None => raise IndexError
  end.

(** [for x in xs: acc = body(acc, x)]. *)
Fixpoint for_each {S A B} (body : B -> A -> M S B) (xs : list A) (acc : B) : M S B :=
  match xs with
  | [] => ret acc
  | x :: xs' => acc' <- body acc x ;; for_each body xs' acc'
  end.

(** Round [num / den] ([den] positive) to the nearest integer, ties to the
    even one: the rule of Python's [round]. *)
Definition round_half_even_frac (num den : Z) : Z :=
  let f := num / den in
  let r := num mod den in
  match 2 * r ?= den with
  | Lt => f
  | Gt => f + 1
  | Eq => if Z.even f then f else f + 1
  end.

Definition round_half_even (x : Q) : Z :=
  round_half_even_frac (Qnum x) (Zpos (Qden x)).

(** *** Floats: IEEE 754 binary64

    [double q] is the double nearest to the rational [q], ties to the even
    mantissa: 53 bits of mantissa, gradual underflow down to [2 ^ -1074].
    The exponent has no upper end here: a result of [2 ^ 1024] or more is
    one that IEEE replaces by [inf] ([overflows]), and each operation below
    says what Python does with it. *)

(** [floor(log2(n / d))] for positive [n] and [d]. *)
Definition ilog2 (n d : Z) : Z :=
  let t := Z.log2 n - Z.log2 d in
  if n * 2 ^ Z.max 0 (- t) <? d * 2 ^ Z.max 0 t then t - 1 else t.

Definition double (q : Q) : Q :=
  let n := Z.abs (Qnum q) in
  let d := Zpos (Qden q) in
  if n =? 0 then 0%Q
  else
    let e := Z.max (ilog2 n d - 52) (-1074) in
    if 0 <=? e then
      inject_Z (Z.sgn (Qnum q) * round_half_even_frac n (d * 2 ^ e) * 2 ^ e)
    else
      Qmake (Z.sgn (Qnum q) * round_half_even_frac (n * 2 ^ (- e)) d)
            (Z.to_pos (2 ^ (- e))).

Definition overflows (x : Q) : bool :=
  Qle_bool (inject_Z (2 ^ 1024)) (Qabs x).

(** [float(z)] for an [int]: an [OverflowError] when [z] is too large. *)
Definition float_of_int (z : Z) : result Q :=
  let x := double (inject_Z z) in
  if overflows x then Raise OverflowError else Ok x.

(** [len(xs)] where a float is expected; a length is below [2 ^ 63]. *)
Definition float_of_len (n : nat) : Q := double (inject_Z (Z.of_nat n)).

(** [a / len(xs)] for a float [a]. *)
Definition truediv (a : Q) (n : nat) : result Q :=
  match n with
  | O => Raise ZeroDivisionError
  | S _ => Ok (double (a / float_of_len n))
  end.

(** [a / len(xs)] for an [int] [a]: the quotient of the two integers,
    rounded once. *)
Definition int_truediv (a : Z) (n : nat) : result Q :=
  match n with
  | O => Raise ZeroDivisionError
  | S _ =>
      let x := double (inject_Z a / inject_Z (Z.of_nat n)) in
      if overflows x then Raise OverflowError else Ok x
  end.

(** [round(x, ndigits)] for a float [x] and [ndigits >= 0]: the decimal
    nearest to the exact value of [x], ties to even, and then the double
    nearest to that decimal. *)
Definition py_round (x : Q) (ndigits : nat) : Q :=
  let scale := inject_Z (10 ^ Z.of_nat ndigits) in
  double (inject_Z (round_half_even (x * scale)) / scale).

(** [not s] for an optional string: [None] and the empty string are falsy. *)
Definition py_not (s : option string) : bool :=
  match s with
  | None => true
  | Some "" => true
  | Some _ => false
  end.

(** [s[n:]]. *)
Fixpoint str_from (n : nat) (s : string) : string :=
  match n, s with
  | O, _ => s
  | S n', EmptyString => EmptyString
  | S n', String _ s' => str_from n' s'
  end.

(** [sorted(xs)] on strings: code-point order, [String.leb]. *)
Fixpoint insert_sorted (x : string) (xs : list string) : list string :=
  match xs with
  | [] => [x]
  | y :: ys => if String.leb x y then x :: y :: ys else y :: insert_sorted x ys
  end.

Definition sorted (xs : list string) : list string :=
  foldr insert_sorted [] xs.

(** ** The world outside the three source files

    [shadow_utils], [cnn_networks], torch, pickle, argparse and the file
    system are not part of the sources: they are the fields of [Env].  The
    attack queries a classifier and draws random shadows, so it threads an
    [oracle] state. *)

Inductive regime : Type := TRAIN | TEST_A | TEST_B | TEST_C.

(** The namespace returned by [parser.parse_args()]. *)
Record args : Type := {
  args_regime : regime;
  data_fraction : Q;
  train_dataset_location : string;
  test_dataset_location : string;
  model_to_test : option string;
  proportion : Q;
}.

Class Env : Type := {
  image : Type;
  label : Type;
  mask_type : Type;
  mask : Type;
  positions : Type;
  device : Type;
  state_dict : Type;
  oracle : Type;
  (* shadow_utils *)
  judge_mask_type : string -> label -> mask_type;
  brightness : image -> mask -> Q;
  attack : image -> label -> positions -> oracle -> (image * bool * Z) * oracle;
  load_mask : result ((mask_type -> option positions) * (mask_type -> option mask));
  (* os, torch, pickle *)
  listdir : string -> result (list string);
  torch_load : string -> result state_dict;
  load_state_dict : state_dict -> result unit;
  pickle_load : string -> result (list image * list label);
  open_wb : string -> result unit;
  (* andrewnet.py: DEVICE, argparse on this process's command line, and the
     torch training loop of train_model *)
  DEVICE : device;
  parse_args : list string -> result args;
  training : args -> oracle -> result unit * oracle;
}.

(** The report pickled by regime A. *)
Record report : Type := {
  robustness : Q;
  avg_queries : Q;
}.

Inductive event : Type :=
| EvImport (module : string)
| EvLoadMask
| EvParseArgs
| EvDispatch (r : regime)
| EvTrain
| EvListdir (dir : string)
| EvModel
| EvTorchLoad (path : string)
| EvReadDataset (path : string)
| EvAttack (index : nat) (success : bool) (num_query : Z)
| EvPrint (text : string) (value : option Q)
| EvDump (path : string) (r : report).

(** The running process: the attack's oracle and the log of effects, oldest
    first. *)
Record proc `{Env} : Type := {
  orc : oracle;
  log : list event;
}.

Definition emit `{Env} (e : event) : M proc unit :=
  fun s => (Ok tt, {| orc := orc s; log := log s ++ [e] |}).

(** [table[k]] on a container loaded by [load_mask]. *)
Definition subscript {S K V} (table : K -> option V) (k : K) : M S V :=
  match table k with
  | Some v => ret v
  | None => raise KeyError
  end.

(** ** src/AndrewNet/test.py *)

(** Module globals [POSITION_LIST, MASK_LIST = load_mask()]. *)
Record test_globals `{Env} : Type := {
  POSITION_LIST : mask_type -> option positions;
  MASK_LIST : mask_type -> option mask;
}.

(** The call [attack(image, label, positions)], logged with its outcome. *)
Definition call_attack `{Env} (index : nat) (img : image) (lbl : label)
    (pos : positions) : M proc (image * bool * Z) :=
  fun s =>
    let '(r, o') := attack img lbl pos (orc s) in
    (Ok r, {| orc := o'; log := log s ++ [EvAttack index (snd (fst r)) (snd r)] |}).

(** Lines 45-51: the body of the loop; [acc] is
    [(num_successes, total_num_query)]. *)
Definition attack_step `{Env} (G : test_globals) (images : list image)
    (labels : list label) (acc : Z * Z) (index : nat) : M proc (Z * Z) :=
  lbl <- getitem labels index ;;
  let mask_type := judge_mask_type "GTSRB" lbl in
  img <- getitem images index ;;
  m <- subscript (MASK_LIST G) mask_type ;;
  if Qle_bool 120 (brightness img m) then
    img <- getitem images index ;;
    lbl <- getitem labels index ;;
    pos <- subscript (POSITION_LIST G) mask_type ;;
    r <- call_attack index img lbl pos ;;
    ret (fst acc + Z.b2z (snd (fst r)), snd acc + snd r)
  else ret acc.

(** Lines 42-51. *)
Definition attack_loop `{Env} (G : test_globals) (images : list image)
    (labels : list label) : M proc (Z * Z) :=
  for_each (attack_step G images labels) (seq 0 (length images)) (0, 0).

(** Lines 53-54. *)
Definition metrics (num_successes total_num_query : Z) (n : nat) : result report :=
  match float_of_int total_num_query with
  | Raise e => Raise e
  | Ok total =>
      match truediv total n with
      | Raise e => Raise e
      | Ok q =>
          let avg := py_round q 4 in
          match int_truediv num_successes n with
          | Raise e => Raise e
          | Ok r =>
              Ok {| robustness := double (1 - py_round r 4); avg_queries := avg |}
          end
      end
  end.

(** Lines 42-54: the loop and the two reported numbers. *)
Definition evaluate `{Env} (G : test_globals) (images : list image)
    (labels : list label) : M proc report :=
  acc <- attack_loop G images labels ;;
  lift (metrics (fst acc) (snd acc) (length images)).

(** Lines 25-27. *)
Definition resolve_checkpoint `{Env} (filename : option string) : M proc string :=
  if py_not filename then
    emit (EvListdir "./checkpoints/") ;;
    files <- lift (listdir "./checkpoints/") ;;
    let files := sorted files in
    getitem_last files
  else ret (default "" filename).

(** Line 61: the name of the results file. *)
Definition results_path (filename : string) : string :=
  "./testing_results/results_" +:+ str_from 6 filename +:+ ".json".

(** Lines 28-62, once [filename] names the checkpoint. *)
Definition test_regime_a_from `{Env} (G : test_globals) (testing_dataset : string)
    (dev : device) (filename : string) : M proc unit :=
  emit EvModel ;;
  emit (EvTorchLoad filename) ;;
  sd <- lift (torch_load filename) ;;
  lift (load_state_dict sd) ;;
  emit (EvReadDataset testing_dataset) ;;
  data <- lift (pickle_load testing_dataset) ;;
  let images := fst data in
  let labels := snd data in
  results <- evaluate G images labels ;;
  emit (EvPrint "Attack robustness: " (Some (robustness results))) ;;
  emit (EvPrint "Average queries: " (Some (avg_queries results))) ;;
  lift (open_wb (results_path filename)) ;;
  emit (EvDump (results_path filename) results).

Definition test_regime_a `{Env} (G : test_globals) (testing_dataset : string)
    (dev : device) (filename : option string) : M proc unit :=
  filename <- resolve_checkpoint filename ;;
  test_regime_a_from G testing_dataset dev filename.

(** *** What a run of the loop shows *)

(** The brightness line 46 compares with 120, for image [index]. *)
Definition masked_brightness `{Env} (G : test_globals) (images : list image)
    (labels : list label) (index : nat) : option Q :=
  match images !! index, labels !! index with
  | Some img, Some lbl =>
      match MASK_LIST G (judge_mask_type "GTSRB" lbl) with
      | Some m => Some (brightness img m)
      | None => None
      end
  | _, _ => None
  end.

Definition bright `{Env} (G : test_globals) (images : list image)
    (labels : list label) (index : nat) : bool :=
  match masked_brightness G images labels index with
  | Some b => Qle_bool 120 b
  | None => false
  end.


(** The images on which [attack] was called, in order, and what the calls
    returned in total. *)
Definition attacked (evs : list event) : list nat :=
  omap (fun e => match e with EvAttack i _ _ => Some i | _ => None end) evs.

Definition attack_successes (evs : list event) : Z :=
  foldr (fun e n => match e with EvAttack _ s _ => Z.b2z s + n | _ => n end) 0 evs.

Definition attack_queries (evs : list event) : Z :=
  foldr (fun e n => match e with EvAttack _ _ q => q + n | _ => n end) 0 evs.

(** The module body of test.py, as run by [import test]: the imports and
    [LOSS_FUN] (lines 1-19, which read no mask and are taken to succeed),
    then [load_mask()] on line 20, then the two [def]s. *)
Definition test_py `{Env} : M proc test_globals :=
  emit (EvImport "test") ;;
  emit EvLoadMask ;;
  masks <- lift load_mask ;;
  ret {| POSITION_LIST := fst masks; MASK_LIST := snd masks |}.

(** ** src/AndrewNet/andrewnet.py *)

(** The values [main] passes to the regime functions. *)
Inductive pyval `{Env} : Type :=
| PStr (s : string)
| PNone
| PFloat (q : Q)
| PDevice (d : device).

(** A function object: its positional parameters (none has a default, there
    is no [*args]) and its body on bound arguments. *)
Record pyfun `{Env} : Type := {
  fn_params : list string;
  fn_body : list pyval -> M proc unit;
}.

(** A call with positional arguments only: they must bind one to one. *)
Definition py_call `{Env} (f : pyfun) (actuals : list pyval) : M proc unit :=
  if (length actuals =? length (fn_params f))%nat then fn_body f actuals
  else raise TypeError.

(** [def test_regime_a(testing_dataset, device, filename)]. *)
Definition test_regime_a_fn `{Env} (G : test_globals) : pyfun := {|
  fn_params := ["testing_dataset"; "device"; "filename"];
  fn_body := fun actuals =>
    match actuals with
    | [PStr ds; PDevice d; PNone] => test_regime_a G ds d None
    | [PStr ds; PDevice d; PStr f] => test_regime_a G ds d (Some f)
    | _ => raise TypeError
    end;
|}.

(** [def main()] of test.py. *)
Definition test_main_fn `{Env} : pyfun := {|
  fn_params := [];
  fn_body := fun _ => emit (EvPrint "Hello World!" None);
|}.

(** The functions that [import test] makes reachable as [test.<name>]. *)
Definition test_module `{Env} (G : test_globals) : gmap string pyfun :=
  <["test_regime_a" := test_regime_a_fn G]> (<["main" := test_main_fn]> ∅).

Definition getattr `{Env} (module : gmap string pyfun) (name : string) : M proc pyfun :=
  match module !! name with
  | Some f => ret f
  | None => raise AttributeError
  end.

Definition opt_str `{Env} (o : option string) : pyval :=
  match o with
  | Some s => PStr s
  | None => PNone
  end.

(** [train_model(args)]: its body is torch code, kept as [training]. *)
Definition train_model `{Env} (a : args) : M proc unit :=
  emit EvTrain ;;
  fun s => let '(r, o') := training a (orc s) in (r, {| orc := o'; log := log s |}).

(** Lines 140-142: the arguments of the [TEST_A] call. *)
Definition test_a_actuals `{Env} (a : args) : list pyval :=
  [PStr (test_dataset_location a); PDevice DEVICE; PFloat (proportion a);
   opt_str (model_to_test a)].

(** Lines 91-152. *)
Definition main `{Env} (test : gmap string pyfun) (argv : list string) : M proc unit :=
  emit EvParseArgs ;;
  a <- lift (parse_args argv) ;;
  emit (EvDispatch (args_regime a)) ;;
  match args_regime a with
  | TRAIN => train_model a
  | TEST_A =>
      f <- getattr test "test_regime_a" ;;
      py_call f (test_a_actuals a)
  | TEST_B =>
      f <- getattr test "test_regime_b" ;;
      py_call f [PStr (test_dataset_location a); PDevice DEVICE;
                 opt_str (model_to_test a)]
  | TEST_C =>
      f <- getattr test "test_regime_c" ;;
      py_call f [PStr (train_dataset_location a); PStr (test_dataset_location a);
                 PDevice DEVICE; PFloat (proportion a); opt_str (model_to_test a)]
  end.

(** [python andrewnet.py argv]: the module body runs [import test] on its
    third line, long before [main()] on its last. *)
Definition andrewnet_py `{Env} (argv : list string) : M proc unit :=
  G <- test_py ;;
  main (test_module G) argv.

(** ** src/shadows_model/model.py *)

(** *** GtsrbCNN: the shape of a sample through the layers *)

Record tensor_shape : Type := {
  channels : Z;
  height : Z;
  width : Z;
}.

Definition rbind {A B} (r : result A) (k : A -> result B) : result B :=
  match r with
  | Ok a => k a
  | Raise e => Raise e
  end.

Notation "r >>= k" := (rbind r k) (at level 50, left associativity).

(** [nn.Conv2d(in_c, out_c, (k, k), stride, padding)]. *)
Definition Conv2d (in_c out_c k stride padding : Z) (x : tensor_shape) : result tensor_shape :=
  if negb (channels x =? in_c) then Raise RuntimeError
  else
    let h := (height x + 2 * padding - k) / stride + 1 in
    let w := (width x + 2 * padding - k) / stride + 1 in
    if (h <=? 0) || (w <=? 0) then Raise RuntimeError
    else Ok {| channels := out_c; height := h; width := w |}.

(** [nn.MaxPool2d(kernel_size, stride, padding)], floor mode. *)
Definition MaxPool2d (kernel_size stride padding : Z) (x : tensor_shape) : result tensor_shape :=
  let h := (height x + 2 * padding - kernel_size) / stride + 1 in
  let w := (width x + 2 * padding - kernel_size) / stride + 1 in
  if (h <=? 0) || (w <=? 0) then Raise RuntimeError
  else Ok {| channels := channels x; height := h; width := w |}.

Definition ReLU (x : tensor_shape) : result tensor_shape := Ok x.
Definition Dropout (x : tensor_shape) : result tensor_shape := Ok x.

(** [nn.Linear(in_features, out_features)] on a flat vector. *)
Definition Linear (in_features out_features : Z) (n : Z) : result Z :=
  if n =? in_features then Ok out_features else Raise RuntimeError.

Definition color_map := Conv2d 3 3 1 1 0.

Definition module1 (x : tensor_shape) : result tensor_shape :=
  Conv2d 3 32 5 1 2 x >>= ReLU >>= Conv2d 32 32 5 1 2 >>= MaxPool2d 2 2 0
    >>= ReLU >>= Dropout.

Definition module2 (x : tensor_shape) : result tensor_shape :=
  Conv2d 32 64 5 1 2 x >>= ReLU >>= Conv2d 64 64 5 1 2 >>= MaxPool2d 2 2 0
    >>= ReLU >>= Dropout.

Definition module3 (x : tensor_shape) : result tensor_shape :=
  Conv2d 64 128 5 1 2 x >>= ReLU >>= Conv2d 128 128 5 1 2 >>= MaxPool2d 2 2 0
    >>= ReLU >>= Dropout.

Definition fc1 (n : Z) : result Z := Linear 14336 1024 n.
Definition fc2 (n : Z) : result Z := Linear 1024 1024 n.
Definition fc3 (n : Z) : result Z := Linear 1024 43 n.

(** [branch.reshape(branch.shape[0], -1)]: features per sample. *)
Definition flat (x : tensor_shape) : Z := channels x * height x * width x.

(** Lines 61-69 of [forward]: the length of [concat]. *)
Definition concat_features (x : tensor_shape) : result Z :=
  color_map x >>= fun x =>
  module1 x >>= fun branch1 =>
  module2 branch1 >>= fun branch2 =>
  module3 branch2 >>= fun branch3 =>
  Ok (flat branch1 + flat branch2 + flat branch3).

(** [forward]: the number of logits per sample. *)
Definition forward (x : tensor_shape) : result Z :=
  concat_features x >>= fc1 >>= fc2 >>= fc3.

(** *** numpy and cv2 *)

Class Cv : Type := {
  ndarray : Type;
  affine : Type;
  scalar : Type;
  rng : Type;
  (* np.random: one draw of [0, 1), and a shuffle of an index array *)
  random_sample : rng -> Q * rng;
  shuffle : list nat -> rng -> list nat * rng;
  (* arrays *)
  shape : ndarray -> Z * Z * Z;
  float32_matrix : list (list Q) -> affine;
  as_float32 : ndarray -> ndarray;
  scalar_float32 : scalar -> scalar;
  rescale : ndarray -> ndarray;
  set_channel : ndarray -> nat -> ndarray -> ndarray;
  get_channel : ndarray -> nat -> ndarray;
  (* cv2 *)
  equalizeHist : ndarray -> ndarray;
  getRotationMatrix2D : Q * Q -> Q -> Q -> affine;
  getAffineTransform : list (Q * Q) -> list (Q * Q) -> affine;
  warpAffine : ndarray -> affine -> Z * Z -> ndarray;
}.

(** What numpy promises of its generator: a draw lies in [0, 1), a shuffle
    rearranges. *)
Class RngLaws `{Cv} : Prop := {
  random_sample_range :
    forall g, (0 <= fst (random_sample g) /\ fst (random_sample g) < 1)%Q;
  shuffle_perm : forall l g, Permutation (fst (shuffle l g)) l;
}.

(** [np.random.uniform(low, high)]. *)
Definition np_uniform `{Cv} (low high : Q) : M rng Q :=
  fun g => let '(u, g') := random_sample g in (Ok (low + (high - low) * u)%Q, g').

(** [np.random.shuffle(a)], returning the shuffled array. *)
Definition np_shuffle `{Cv} (a : list nat) : M rng (list nat) :=
  fun g => let '(a', g') := shuffle a g in (Ok a', g').

(** [a[idx] = v] for an integer index array [idx] and a value [v] of the same
    length: row [k] of [v] goes to row [idx[k]] of [a].  numpy copies [v]
    first when it shares memory with [a], so the rows read are those of [v]
    before the assignment, also in [a[idx] = a]. *)
Definition scatter {A} (a : list A) (idx : list nat) (v : list A) : list A :=
  fold_left (fun acc p => <[fst p := snd p]> acc) (combine idx v) a.

(** [a[idx] = a] as it would go without that copy, row [k] being read from
    the array as written so far; it is not what [gen_extra_data] runs, and
    is kept only to be compared with [scatter]. *)
Definition scatter_in_place {A} (a : list A) (idx : list nat) : list A :=
  fold_left (fun acc p =>
               match acc !! fst p with
               | Some x => <[snd p := x]> acc
               | None => acc
               end)
            (imap pair idx) a.

Definition setitem_fancy {S A} (a : list A) (idx : list nat) (v : list A) : M S (list A) :=
  if negb (length v =? length idx)%nat then raise ValueError
  else if forallb (fun i => i <? length a)%nat idx then ret (scatter a idx v)
  else raise IndexError.

(** [range(n)]. *)
Definition range (n : Z) : list nat := seq 0 (Z.to_nat n).

(** Lines 87-91. *)
Definition pre_process_image `{Cv} (image : ndarray) : ndarray :=
  let image := set_channel image 0 (equalizeHist (get_channel image 0)) in
  let image := set_channel image 1 (equalizeHist (get_channel image 1)) in
  let image := set_channel image 2 (equalizeHist (get_channel image 2)) in
  rescale image.

(** Line 101: [ang_rot = np.random.uniform(ang_range) - ang_range / 2].  The
    one positional argument of [uniform(low=0.0, high=1.0)] is [low]. *)
Definition sample_ang_rot `{Cv} (ang_range : Q) : M rng Q :=
  u <- np_uniform ang_range 1 ;;
  ret (u - ang_range / 2)%Q.

(** Lines 106, 107, 113, 114: [range * np.random.uniform() - range / 2]. *)
Definition sample_centered `{Cv} (range : Q) : M rng Q :=
  u <- np_uniform 0 1 ;;
  ret (range * u - range / 2)%Q.

Definition transform_image `{Cv} (image : ndarray)
    (ang_range shear_range trans_range : Q) (preprocess : bool) : M rng ndarray :=
  ang_rot <- sample_ang_rot ang_range ;;
  let '(rows, cols, ch) := shape image in
  let rot_m :=
    getRotationMatrix2D (inject_Z cols / 2, inject_Z rows / 2)%Q ang_rot 1 in
  tr_x <- sample_centered trans_range ;;
  tr_y <- sample_centered trans_range ;;
  let trans_m := float32_matrix [[1; 0; tr_x]; [0; 1; tr_y]]%Q in
  let pts1 := [(5, 5); (20, 5); (5, 20)]%Q in
  d1 <- sample_centered shear_range ;;
  let pt1 := (5 + d1)%Q in
  d2 <- sample_centered shear_range ;;
  let pt2 := (20 + d2)%Q in
  let pts2 := [(pt1, 5); (pt2, pt1); (5, pt2)]%Q in
  let shear_m := getAffineTransform pts1 pts2 in
  let image := warpAffine image rot_m (cols, rows) in
  let image := warpAffine image trans_m (cols, rows) in
  let image := warpAffine image shear_m (cols, rows) in
  ret (if preprocess then pre_process_image image else image).

(** Lines 145-150: the inner loop for input [i]; [acc] is [(x_arr, y_arr)]. *)
Definition gen_copies `{Cv} (x_train : list ndarray) (y_train : list scalar)
    (n_each : Z) (ang_range shear_range trans_range : Q) (preprocess : bool)
    (acc : list ndarray * list scalar) (i : nat) : M rng (list ndarray * list scalar) :=
  for_each (fun (acc : list ndarray * list scalar) (i_n : nat) =>
              x <- getitem x_train i ;;
              img_trf <- transform_image x ang_range shear_range trans_range preprocess ;;
              y <- getitem y_train i ;;
              ret (fst acc ++ [img_trf], snd acc ++ [y]))
           (range n_each) acc.

Definition gen_extra_data `{Cv} (x_train : list ndarray) (y_train : list scalar)
    (n_each : Z) (ang_range shear_range trans_range : Q) (randomize_var : Z)
    (preprocess : bool) : M rng (list ndarray * list scalar) :=
  let n_train := length x_train in
  acc <- for_each (gen_copies x_train y_train n_each ang_range shear_range
                     trans_range preprocess)
                  (seq 0 n_train) ([], []) ;;
  let x_arr := as_float32 <$> fst acc in
  let y_arr := scalar_float32 <$> snd acc in
  if randomize_var =? 1 then
    let len_arr := seq 0 (length y_arr) in
    len_arr <- np_shuffle len_arr ;;
    x_arr <- setitem_fancy x_arr len_arr x_arr ;;
    y_arr <- setitem_fancy y_arr len_arr y_arr ;;
    ret (x_arr, y_arr)
  else ret (x_arr, y_arr).

(** [img] is what [transform_image] returns on [x] from some state of the
    generator. *)
Definition transformed_copy `{Cv} (ang_range shear_range trans_range : Q)
    (preprocess : bool) (x img : ndarray) : Prop :=
  exists g g', transform_image x ang_range shear_range trans_range preprocess g
               = (Ok img, g').

(** ** Invariants of the loops

    Used in Part II; they speak of the definitions above only. *)

(** Whatever its outcome, [c] leaves the log it found and adds to it. *)
Definition extends `{Env} {A} (c : M proc A) : Prop :=
  forall st, exists evs, log (snd (c st)) = log st ++ evs.

(** Ascending: every entry is below all those after it. *)
Fixpoint ascending (xs : list string) : Prop :=
  match xs with
  | [] => True
  | x :: xs' => (forall y, y ∈ xs' -> String.leb x y = true) /\ ascending xs'
  end.

(** The state of [(x_arr, y_arr)] once inputs [0 .. m-1] are done. *)
Definition copies_upto `{Cv} (x_train : list ndarray) (y_train : list scalar)
    (n_each : Z) (ang_range shear_range trans_range : Q) (preprocess : bool)
    (m : nat) (acc : list ndarray * list scalar) : Prop :=
  let n := Z.to_nat n_each in
  length (fst acc) = (m * n)%nat
  /\ length (snd acc) = (m * n)%nat
  /\ forall i j, (i < m)%nat -> (j < n)%nat ->
       exists x y img,
         x_train !! i = Some x /\ y_train !! i = Some y
         /\ transformed_copy ang_range shear_range trans_range preprocess x img
         /\ fst acc !! (i * n + j)%nat = Some img
         /\ snd acc !! (i * n + j)%nat = Some y.

(** ** Replayed runs

    Concrete worlds on which the definitions above evaluate.  The random
    generator replays a tape of draws and of permutations; an image is its
    row of pixels, which cv2 leaves as they are: so do the three warps of
    [transform_image] when every range and every draw is 0, without
    preprocessing. *)

Record tape : Type := {
  draws : list Q;
  perms : list (list nat);
}.

Definition tape_sample (g : tape) : Q * tape :=
  match draws g with
  | [] => (0%Q, g)
  | u :: us =>
      (if Qle_bool 0 u && negb (Qle_bool 1 u) then u else 0%Q,
       {| draws := us; perms := perms g |})
  end.

Definition tape_shuffle (l : list nat) (g : tape) : list nat * tape :=
  match perms g with
  | [] => (l, g)
  | p :: ps =>
      (if bool_decide (p ≡ₚ l) then p else l, {| draws := draws g; perms := ps |})
  end.

#[local] Instance replay_cv : Cv := {|
  ndarray := list Z;
  affine := unit;
  scalar := Z;
  rng := tape;
  random_sample := tape_sample;
  shuffle := tape_shuffle;
  shape := fun img => (1, Z.of_nat (length img), 1);
  float32_matrix := fun _ => tt;
  as_float32 := fun img => img;
  scalar_float32 := fun y => y;
  rescale := fun img => img;
  set_channel := fun img _ _ => img;
  get_channel := fun img _ => img;
  equalizeHist := fun img => img;
  getRotationMatrix2D := fun _ _ _ => tt;
  getAffineTransform := fun _ _ => tt;
  warpAffine := fun img _ _ => img;
|}.

(** A world for the AndrewNet driver: an image is uniformly grey and given
    by its level, which is its brightness under any mask; the attack replays
    a tape of outcomes; the directory listing, the paths at which
    [torch.load] finds a checkpoint, the test set, the mask resource and the
    parsed command line are those of the scenario. *)
Record scenario : Type := {
  sc_listing : result (list string);
  sc_loads : string -> bool;
  sc_dataset : result (list Z * list Z);
  sc_masks : bool;
  sc_args : result args;
}.

Definition replay_env (w : scenario) : Env := {|
  image := Z;
  label := Z;
  mask_type := Z;
  mask := unit;
  positions := unit;
  device := unit;
  state_dict := unit;
  oracle := list (bool * Z);
  judge_mask_type := fun _ lbl => lbl;
  brightness := fun img _ => inject_Z img;
  attack := fun img _ _ o =>
    match o with
    | [] => ((img, false, 0), [])
    | (s, q) :: o' => ((img, s, q), o')
    end;
  load_mask :=
    if sc_masks w then Ok (fun _ => Some tt, fun _ => Some tt) else Raise OSError;
  listdir := fun _ => sc_listing w;
  torch_load := fun path => if sc_loads w path then Ok tt else Raise OSError;
  load_state_dict := fun _ => Ok tt;
  pickle_load := fun _ => sc_dataset w;
  open_wb := fun _ => Ok tt;
  DEVICE := tt;
  parse_args := fun _ => sc_args w;
  training := fun _ o => (Ok tt, o);
|}.

(** A run of [python andrewnet.py TEST_A]: three checkpoints on disk, four
    test images of grey levels 100, 130, 119 and 120, masks in place, and a
    [torch.load] that finds a checkpoint under any name. *)
Definition sample_args : args := {|
  args_regime := TEST_A;
  data_fraction := 1;
  train_dataset_location := "./dataset/GTSRB/train.pkl";
  test_dataset_location := "./dataset/GTSRB/test.pkl";
  model_to_test := None;
  proportion := 1;
|}.

Definition sample_listing : list string :=
  ["model_2023-01-02_03-04-05_25.pth"; "model_2023-05-06_07-08-09_25.pth";
   "model_2022-11-12_13-14-15_25.pth"].

Definition sample_scenario : scenario := {|
  sc_listing := Ok sample_listing;
  sc_loads := fun _ => true;
  sc_dataset := Ok ([100; 130; 119; 120], [0; 1; 2; 3]);
  sc_masks := true;
  sc_args := Ok sample_args;
|}.

(** The same run started from a directory that holds [./checkpoints/] and
    no checkpoint of its own: [torch.load] finds the three files under
    their paths from that directory and under no other name. *)
Definition stored_scenario : scenario := {|
  sc_listing := Ok sample_listing;
  sc_loads := fun path =>
    existsb (String.eqb path) (String.append "./checkpoints/" <$> sample_listing);
  sc_dataset := Ok ([100; 130; 119; 120], [0; 1; 2; 3]);
  sc_masks := true;
  sc_args := Ok sample_args;
|}.

(** The same with an empty [./checkpoints/]. *)
Definition empty_scenario : scenario := {|
  sc_listing := Ok [];
  sc_loads := fun _ => true;
  sc_dataset := Ok ([100; 130; 119; 120], [0; 1; 2; 3]);
  sc_masks := true;
  sc_args := Ok sample_args;
|}.

Definition sample_globals (w : scenario) : @test_globals (replay_env w) :=
  @Build_test_globals (replay_env w) (fun _ => Some tt) (fun _ => Some tt).

Definition sample_proc (w : scenario) : @proc (replay_env w) :=
  @Build_proc (replay_env w) [(true, 5); (false, 7)] [].

(** A generator about to draw the permutation that swaps two rows. *)
Definition swap_tape : tape := {| draws := []; perms := [[1; 0]%nat] |}.

(** ** Further observations on a run *)

(** Kinds of events. *)
Definition is_attack (e : event) : Prop :=
  match e with EvAttack _ _ _ => True | _ => False end.

Definition is_dump (e : event) : Prop :=
  match e with EvDump _ _ => True | _ => False end.

Definition is_listdir (e : event) : Prop :=
  match e with EvListdir _ => True | _ => False end.

(** What a run of [andrewnet.py] can log without entering a test regime. *)
Definition is_startup_or_training (e : event) : Prop :=
  match e with
  | EvImport _ | EvLoadMask | EvParseArgs | EvDispatch _ | EvTrain => True
  | _ => False
  end.

(** [c] does not read the log: from two processes that differ in their logs
    only it gives the same outcome, the same oracle and the same new events. *)
Definition log_blind `{Env} {A} (c : M proc A) : Prop :=
  forall o l1 l2, exists r o' evs,
    c {| orc := o; log := l1 |} = (r, {| orc := o'; log := l1 ++ evs |})
    /\ c {| orc := o; log := l2 |} = (r, {| orc := o'; log := l2 ++ evs |}).

(** The lines printed, in order. *)
Definition prints (evs : list event) : list (string * option Q) :=
  omap (fun e => match e with EvPrint t v => Some (t, v) | _ => None end) evs.

(** The attack calls, in order, with what they returned. *)
Definition attacks (evs : list event) : list (nat * bool * Z) :=
  omap (fun e => match e with EvAttack i s q => Some (i, s, q) | _ => None end) evs.


(** ** src/AndrewNet/andrewnet.py: the split and the checkpoint of [train_model] *)

(** Line 17. *)
Definition ANET_MODEL : string := "./checkpoints/model".

(** Line 53. *)
Definition num_epoch : Z := 25.

(** Lines 81-83: the name [torch.save] writes to, [now] being
    [datetime.now().strftime('%Y-%m-%d_%H-%M-%S')]. *)
Definition checkpoint_filename (now : string) : string :=
  ANET_MODEL +:+ "_" +:+ now +:+ "_" +:+ pretty num_epoch +:+ ".pth".

(** The name under which [listdir("./checkpoints/")] reports a file of that
    directory. *)
Definition listed_as (path : string) : string :=
  str_from (String.length "./checkpoints/") path.

(** [xs[:stop]]: a negative [stop] counts from the end. *)
Definition slice_to {A} (xs : list A) (stop : Z) : list A :=
  if 0 <=? stop then take (Z.to_nat stop) xs
  else take (length xs - Z.to_nat (- stop)) xs.

(** Lines 39-44: [(train_idx, real_num)] for a dataset of [num_train]
    examples.  [args.data_fraction] is a float, the double nearest to the
    number given; the product of line 42 is a double, and [int] raises an
    [OverflowError] on [inf]. *)
Definition train_split `{Cv} (num_train : nat) (data_fraction : Q)
    : M rng (list nat * nat) :=
  let indices := seq 0 num_train in
  indices <- np_shuffle indices ;;
  let product := double (double data_fraction * float_of_len num_train) in
  split <- (if overflows product then raise OverflowError
            else ret (Qfloor product)) ;;
  let train_idx := slice_to indices split in
  let real_num := length train_idx in
  ret (train_idx, real_num).

(** ** src/AndrewNet/andrewnet.py: [train_model], line by line

    The calls into torch, [utils] and [dataset] are the fields of [Torch];
    [world] holds what they change: the model, the optimizer and torch's
    generator.  The shuffle of line 41 is numpy's, of [Cv]. *)

Class Torch : Type := {
  train_data : Type;
  world : Type;
  (* lines 25-29: the pickled images and labels *)
  load_train_data : string -> result train_data;
  (* lines 33-36: [predraw_shadows_and_edges(images, new_labels, use_adv,
     use_transform)] wrapped in an [AndrewNetDataset]; its length *)
  predraw_dataset : train_data -> bool -> bool -> world -> result nat * world;
  (* lines 54-59: the model, initialised, and its optimizer *)
  init_training : world -> world;
  (* lines 50 and 66: the batches of one pass over
     [DataLoader(dataset_train, batch_size=64, sampler=SubsetRandomSampler(train_idx))] *)
  dataloader : list nat -> world -> list (list nat) * world;
  (* lines 67-72 on one batch: the optimisation step; the number of correct
     predictions and [batch_loss.item()] *)
  train_batch : list nat -> world -> result (Z * Q) * world;
  (* line 82 *)
  strftime_now : world -> string;
  (* lines 84-87 *)
  torch_save : string -> world -> result unit;
}.

(** What torch promises of them: the batches of a pass are not empty, hold
    at most 64 examples and together the sampled indices in some order; the
    correct predictions of a batch are counted among its examples. *)
Class TorchLaws `{Torch} : Prop := {
  dataloader_batches :
    forall idx w,
      Permutation (concat (fst (dataloader idx w))) idx
      /\ Forall (fun b => (0 < length b <= 64)%nat) (fst (dataloader idx w));
  train_batch_correct :
    forall b w r w', train_batch b w = (Ok r, w') -> 0 <= fst r <= Z.of_nat (length b);
}.

Inductive train_event : Type :=
| TrPrint (text : string) (value : option Q)
| TrDataset (use_adv use_transform : bool)
| TrBatch (data_batch : list nat)
| TrSave (path : string).

(** The training process: numpy's generator, torch's world, and the log of
    effects, oldest first. *)
Record trainer `{Cv} `{Torch} : Type := {
  np_rng : rng;
  torch_world : world;
  shown : list train_event;
}.

Section Train_model.
Context `{Cv} `{Torch}.

Definition tr_emit (e : train_event) : M trainer unit :=
  fun s => (Ok tt, {| np_rng := np_rng s; torch_world := torch_world s;
                      shown := shown s ++ [e] |}).

(** A computation on numpy's generator, run in the training process. *)
Definition with_np {A} (c : M rng A) : M trainer A :=
  fun s => let '(r, g) := c (np_rng s) in
           (r, {| np_rng := g; torch_world := torch_world s; shown := shown s |}).

(** The same for torch's world. *)
Definition with_world {A} (c : M world A) : M trainer A :=
  fun s => let '(r, w) := c (torch_world s) in
           (r, {| np_rng := np_rng s; torch_world := w; shown := shown s |}).

(** The value of [acc] on lines 63-76: the Python float [0.0] until line 72
    adds a tensor to it, a tensor from then on. *)
Inductive number : Type :=
| PyFloat (x : Q)
| Tensor (x : Q).

Definition number_value (n : number) : Q :=
  match n with PyFloat x | Tensor x => x end.

(** [acc += t] for a tensor [t]. *)
Definition iadd_tensor (acc : number) (t : Q) : number :=
  Tensor (number_value acc + t).

(** [acc / n] for an [int] [n].  A Python float raises on 0.  A tensor does
    not: torch gives [inf] or [nan] there, which [Q] has not; line 76 never
    divides a tensor by 0, as a batch has run only if an example was
    sampled.  The quotient of a tensor is kept exact (torch rounds it to its
    own precision). *)
Definition div_int (acc : number) (n : nat) : result Q :=
  match acc with
  | PyFloat x => truediv x n
  | Tensor x => Ok (x / inject_Z (Z.of_nat n))%Q
  end.

(** Lines 32-37 and 39: the four datasets, in the order of line 32, and
    [num_train], the length of their concatenation. *)
Definition train_datasets (data : train_data) : M trainer nat :=
  for_each (fun (num_train : nat) (p : bool * bool) =>
              let trans := fst p in
              let adv := snd p in
              n <- with_world (predraw_dataset data adv trans) ;;
              tr_emit (TrDataset adv trans) ;;
              ret (num_train + n)%nat)
           [(false, false); (true, true); (false, true); (true, false)] 0%nat.

(** Lines 25-48: [(num_train, train_idx, real_num)]. *)
Definition train_setup (a : args) : M trainer (nat * list nat * nat) :=
  data <- lift (load_train_data (train_dataset_location a)) ;;
  tr_emit (TrPrint "Generating image datasets..." None) ;;
  num_train <- train_datasets data ;;
  split <- with_np (train_split num_train (data_fraction a)) ;;
  let train_idx := fst split in
  let real_num := snd split in
  tr_emit (TrPrint ("There are " +:+ pretty num_train
                      +:+ " examples in the dataset, and I am using "
                      +:+ pretty real_num +:+ " of them!") None) ;;
  ret (num_train, train_idx, real_num).

(** Lines 67-74: one batch; [acc] is [(acc, loss, num_sample)]. *)
Definition train_on_batch (acc : number * Q * nat) (data_batch : list nat)
    : M trainer (number * Q * nat) :=
  r <- with_world (train_batch data_batch) ;;
  tr_emit (TrBatch data_batch) ;;
  ret (iadd_tensor (fst (fst acc)) (inject_Z (fst r)),
       double (snd (fst acc) + double (snd r * float_of_len (length data_batch))),
       (snd acc + length data_batch)%nat).

(** Lines 61-79: one epoch. *)
Definition train_epoch (train_idx : list nat) (real_num : nat) (epoch : nat)
    : M trainer unit :=
  tr_emit (TrPrint ("NOW AT: Epoch " +:+ pretty epoch) None) ;;
  batches <- with_world (fun w => let '(bs, w') := dataloader train_idx w in (Ok bs, w')) ;;
  sums <- for_each train_on_batch batches (PyFloat 0, 0%Q, 0%nat) ;;
  let acc := fst (fst sums) in
  let loss := snd (fst sums) in
  a <- lift (div_int acc real_num) ;;
  tr_emit (TrPrint "Train Acc: " (Some (py_round a 4))) ;;
  l <- lift (truediv loss real_num) ;;
  tr_emit (TrPrint "Loss: " (Some (py_round l 4))).

(** Lines 50-88. *)
Definition train_fit (train_idx : list nat) (real_num : nat) : M trainer unit :=
  tr_emit (TrPrint "******** I'm training the AndrewNet Model Now! *****" None) ;;
  with_world (fun w => (Ok tt, init_training w)) ;;
  for_each (fun (_ : unit) epoch => train_epoch train_idx real_num epoch)
           (range num_epoch) tt ;;
  filename <- with_world (fun w => (Ok (checkpoint_filename (strftime_now w)), w)) ;;
  with_world (fun w => (torch_save filename w, w)) ;;
  tr_emit (TrSave filename) ;;
  tr_emit (TrPrint ("Model saved to " +:+ filename +:+ "!") None).

(** Lines 21-88. *)
Definition train_model_lines (a : args) : M trainer unit :=
  setup <- train_setup a ;;
  train_fit (snd (fst setup)) (snd setup).

End Train_model.

(** Kinds of training events. *)
Definition is_save (e : train_event) : Prop :=
  match e with TrSave _ => True | _ => False end.

(** One epoch in the log: its number, the batches trained on, the accuracy
    and the loss printed. *)
Definition epoch_events (epoch : nat) (batches : list (list nat)) (acc loss : Q)
    : list train_event :=
  TrPrint ("NOW AT: Epoch " +:+ pretty epoch) None
    :: (TrBatch <$> batches)
    ++ [TrPrint "Train Acc: " (Some acc); TrPrint "Loss: " (Some loss)].

(** A torch for the replayed runs: three pickled images, datasets of that
    length, batches of one example, every prediction correct at loss 1/2, a
    clock stopped on 6 May 2023. *)
#[local] Instance replay_torch : Torch := {|
  train_data := nat;
  world := nat;
  load_train_data := fun _ => Ok 3%nat;
  predraw_dataset := fun data _ _ w => (Ok data, w);
  init_training := fun w => w;
  dataloader := fun idx w => ((fun i => [i]) <$> idx, w);
  train_batch := fun b w => (Ok (Z.of_nat (length b), 1 # 2), Datatypes.S w);
  strftime_now := fun _ => "2023-05-06_07-08-09";
  torch_save := fun _ _ => Ok tt;
|}.

Definition sample_trainer (g : tape) : @trainer replay_cv replay_torch :=
  {| np_rng := g; torch_world := 0%nat; shown := [] |}.

(** A [TEST_B] command line. *)
Definition test_b_args : args := {|
  args_regime := TEST_B;
  data_fraction := 1;
  train_dataset_location := "./dataset/GTSRB/train.pkl";
  test_dataset_location := "./dataset/GTSRB/test.pkl";
  model_to_test := None;
  proportion := 1;
|}.

Definition test_b_scenario : scenario := {|
  sc_listing := Ok sample_listing;
  sc_loads := fun _ => true;
  sc_dataset := Ok ([100; 130; 119; 120], [0; 1; 2; 3]);
  sc_masks := true;
  sc_args := Ok test_b_args;
|}.

(** A [TRAIN] command line with [-d 0]. *)
Definition no_data_args : args := {|
  args_regime := TRAIN;
  data_fraction := 0;
  train_dataset_location := "./dataset/GTSRB/train.pkl";
  test_dataset_location := "./dataset/GTSRB/test.pkl";
  model_to_test := None;
  proportion := 1;
|}.

(** A generator with nothing on its tape: every draw is 0, every shuffle
    the identity. *)
Definition blank_tape : tape := {| draws := []; perms := [] |}.

(** A test set without images. *)
Definition no_images_scenario : scenario := {|
  sc_listing := Ok sample_listing;
  sc_loads := fun _ => true;
  sc_dataset := Ok ([], [0; 1]);
  sc_masks := true;
  sc_args := Ok sample_args;
|}.

(* ===================================================================== *)
(** * Part II: properties                                                 *)
(* ===================================================================== *)

(** [lia] with floor division and remainder. *)
Ltac Zify.zify_post_hook ::= Z.to_euclidean_division_equations.

(** ** GtsrbCNN *)

Section GtsrbCNN_shapes.

(** A 5x5 convolution with padding 2 keeps the resolution. *)
Lemma Conv2d_same in_c out_c x :
  channels x = in_c -> 0 < height x -> 0 < width x ->
  Conv2d in_c out_c 5 1 2 x =
    Ok {| channels := out_c; height := height x; width := width x |}.
Proof.
  intros Hc Hh Hw. unfold Conv2d.
  replace (channels x =? in_c) with true by (symmetry; apply Z.eqb_eq; exact Hc).
  cbn [negb].
  rewrite !Z.div_1_r.
  replace (height x + 2 * 2 - 5 + 1) with (height x) by lia.
  replace (width x + 2 * 2 - 5 + 1) with (width x) by lia.
  destruct (Z.leb_spec (height x) 0); [lia|].
  destruct (Z.leb_spec (width x) 0); [lia|].
  reflexivity.
Qed.

(** The 2x2 pooling of stride 2 halves it, rounding down. *)
Lemma MaxPool2d_half x :
  2 <= height x -> 2 <= width x ->
  MaxPool2d 2 2 0 x =
    Ok {| channels := channels x; height := height x / 2; width := width x / 2 |}.
Proof.
  intros Hh Hw. unfold MaxPool2d.
  replace ((height x + 2 * 0 - 2) / 2 + 1) with (height x / 2) by lia.
  replace ((width x + 2 * 0 - 2) / 2 + 1) with (width x / 2) by lia.
  destruct (Z.leb_spec (height x / 2) 0); [lia|].
  destruct (Z.leb_spec (width x / 2) 0); [lia|].
  reflexivity.
Qed.

Lemma MaxPool2d_small x :
  height x < 2 \/ width x < 2 -> MaxPool2d 2 2 0 x = Raise RuntimeError.
Proof.
  intros Hs. unfold MaxPool2d.
  replace ((height x + 2 * 0 - 2) / 2 + 1) with (height x / 2) by lia.
  replace ((width x + 2 * 0 - 2) / 2 + 1) with (width x / 2) by lia.
  destruct (Z.leb_spec (height x / 2) 0); [reflexivity|].
  destruct (Z.leb_spec (width x / 2) 0); [reflexivity|].
  lia.
Qed.

(** One module: two resolution-preserving convolutions and a pooling. *)
Lemma module_shape in_c out_c x :
  channels x = in_c -> 2 <= height x -> 2 <= width x ->
  (Conv2d in_c out_c 5 1 2 x >>= ReLU >>= Conv2d out_c out_c 5 1 2
     >>= MaxPool2d 2 2 0 >>= ReLU >>= Dropout) =
    Ok {| channels := out_c; height := height x / 2; width := width x / 2 |}.
Proof.
  intros Hc Hh Hw.
  rewrite Conv2d_same by lia. cbn [rbind ReLU].
  rewrite Conv2d_same by (cbn; lia). cbn [rbind channels height width].
  rewrite MaxPool2d_half by (cbn; lia). reflexivity.
Qed.

Lemma Conv2d_empty in_c out_c x :
  height x <= 0 \/ width x <= 0 ->
  Conv2d in_c out_c 5 1 2 x = Raise RuntimeError.
Proof.
  intros Hs. unfold Conv2d.
  destruct (negb (channels x =? in_c)); [reflexivity|].
  rewrite !Z.div_1_r.
  destruct (Z.leb_spec (height x + 2 * 2 - 5 + 1) 0); [reflexivity|].
  destruct (Z.leb_spec (width x + 2 * 2 - 5 + 1) 0); [reflexivity|].
  lia.
Qed.

Lemma module_small in_c out_c x :
  height x < 2 \/ width x < 2 ->
  (Conv2d in_c out_c 5 1 2 x >>= ReLU >>= Conv2d out_c out_c 5 1 2
     >>= MaxPool2d 2 2 0 >>= ReLU >>= Dropout) = Raise RuntimeError.
Proof.
  intros Hs.
  destruct (Z.eq_dec (channels x) in_c) as [Hc|Hc].
  2: { unfold Conv2d at 1. apply Z.eqb_neq in Hc. rewrite Hc. reflexivity. }
  destruct (Z_lt_le_dec 0 (height x)) as [Hh|Hh];
    [destruct (Z_lt_le_dec 0 (width x)) as [Hw|Hw]|].
  - rewrite Conv2d_same by lia. cbn [rbind ReLU].
    rewrite Conv2d_same by (cbn; lia). cbn [rbind channels height width].
    rewrite MaxPool2d_small by (cbn; lia). reflexivity.
  - rewrite Conv2d_empty by lia. reflexivity.
  - rewrite Conv2d_empty by lia. reflexivity.
Qed.

(** The length of [concat] for a 3-channel input of [h] by [w] pixels. *)
Lemma concat_features_eq h w :
  8 <= h -> 8 <= w ->
  concat_features {| channels := 3; height := h; width := w |} =
    Ok (32 * (h / 2) * (w / 2) + 64 * (h / 4) * (w / 4) + 128 * (h / 8) * (w / 8)).
Proof.
  intros Hh Hw. unfold concat_features, color_map, module1, module2, module3.
  unfold Conv2d at 1. cbn [channels height width negb Z.eqb Pos.eqb].
  rewrite !Z.div_1_r.
  replace (h + 2 * 0 - 1 + 1) with h by lia.
  replace (w + 2 * 0 - 1 + 1) with w by lia.
  destruct (Z.leb_spec h 0); [lia|]. destruct (Z.leb_spec w 0); [lia|].
  cbn [orb rbind].
  rewrite module_shape by (cbn; lia). cbn [rbind channels height width].
  rewrite module_shape by (cbn; lia). cbn [rbind channels height width].
  rewrite module_shape by (cbn; lia). cbn [rbind channels height width].
  unfold flat. cbn [channels height width].
  rewrite !Z.div_div by lia. reflexivity.
Qed.

Lemma concat_features_small h w :
  h < 8 \/ w < 8 ->
  concat_features {| channels := 3; height := h; width := w |} = Raise RuntimeError.
Proof.
  intros Hs. unfold concat_features, color_map, module1, module2, module3.
  unfold Conv2d at 1. cbn [channels height width negb Z.eqb Pos.eqb].
  rewrite !Z.div_1_r.
  replace (h + 2 * 0 - 1 + 1) with h by lia.
  replace (w + 2 * 0 - 1 + 1) with w by lia.
  destruct (Z.leb_spec h 0); [reflexivity|].
  destruct (Z.leb_spec w 0); [reflexivity|].
  cbn [orb rbind].
  destruct (Z_lt_le_dec h 2) as [|H2]; [|destruct (Z_lt_le_dec w 2) as [|W2]].
  1,2: rewrite module_small by (cbn; lia); reflexivity.
  rewrite module_shape by (cbn; lia). cbn [rbind channels height width].
  destruct (Z_lt_le_dec h 4) as [|H4]; [|destruct (Z_lt_le_dec w 4) as [|W4]].
  1,2: rewrite module_small by (cbn; lia); reflexivity.
  rewrite module_shape by (cbn; lia). cbn [rbind channels height width].
  rewrite module_small by (cbn; lia). reflexivity.
Qed.

End GtsrbCNN_shapes.

(** C4, as stated, fails: a 48x48 3-channel input gives a [concat] of
    32*24^2 + 64*12^2 + 128*6^2 = 32256 features, not 14336, and [fc1]
    rejects it. *)
Lemma GtsrbCNN_48_concat_is_32256 :
  concat_features {| channels := 3; height := 48; width := 48 |} = Ok 32256
  /\ concat_features {| channels := 3; height := 48; width := 48 |} <> Ok 14336
  /\ 32 * (48 / 2) ^ 2 + 64 * (48 / 4) ^ 2 + 128 * (48 / 8) ^ 2 <> 14336
  /\ forward {| channels := 3; height := 48; width := 48 |} = Raise RuntimeError.
Proof.
  assert (E : concat_features {| channels := 3; height := 48; width := 48 |} = Ok 32256)
    by (rewrite concat_features_eq by lia; reflexivity).
  split; [exact E|]. split; [rewrite E; discriminate|].
  split; [vm_compute; discriminate|].
  unfold forward. rewrite E. reflexivity.
Qed.

(** C4, amended: for a square 3-channel input of side [h], [concat] has the
    14336 features [fc1] consumes exactly when [h] is 32 (or 33, whose last
    row and column the pooling drops): 32*16^2 + 64*8^2 + 128*4^2 = 14336,
    and a 32x32 input goes through to the 43 logits. *)
Theorem GtsrbCNN_concat_14336_iff_side_32 :
  (forall h,
     concat_features {| channels := 3; height := h; width := h |} = Ok 14336
     <-> h = 32 \/ h = 33)
  /\ 32 * (32 / 2) ^ 2 + 64 * (32 / 4) ^ 2 + 128 * (32 / 8) ^ 2 = 14336
  /\ forward {| channels := 3; height := 32; width := 32 |} = Ok 43.
Proof.
  split; [|split].
  - intros h. split.
    + intros E. destruct (Z_lt_le_dec h 8) as [Hs|Hb].
      * rewrite concat_features_small in E by lia. discriminate.
      * rewrite concat_features_eq in E by lia. injection E as E.
        destruct (Z_lt_le_dec h 32) as [Hlo|Hlo].
        { assert (h / 2 <= 15) by lia. assert (h / 4 <= 7) by lia.
          assert (h / 8 <= 3) by lia.
          assert (0 <= h / 2) by lia. assert (0 <= h / 4) by lia.
          assert (0 <= h / 8) by lia.
          assert ((h / 2) * (h / 2) <= 225) by nia.
          assert ((h / 4) * (h / 4) <= 49) by nia.
          assert ((h / 8) * (h / 8) <= 9) by nia. lia. }
        destruct (Z_lt_le_dec 33 h) as [Hhi|Hhi]; [|lia].
        assert (17 <= h / 2) by lia. assert (8 <= h / 4) by lia.
        assert (4 <= h / 8) by lia.
        assert (289 <= (h / 2) * (h / 2)) by nia.
        assert (64 <= (h / 4) * (h / 4)) by nia.
        assert (16 <= (h / 8) * (h / 8)) by nia. lia.
    + intros [-> | ->]; rewrite concat_features_eq by lia; reflexivity.
  - reflexivity.
  - unfold forward. rewrite concat_features_eq by lia. reflexivity.
Qed.

(** ** transform_image *)

Section Rotation_angle.
Context `{Cv}.

(** What line 101 computes from the draw [u] of the generator: the range is
    the lower end of the interval, 1 its upper end. *)
Lemma sample_ang_rot_draw ang_range g :
  fst (sample_ang_rot ang_range g) =
    Ok (ang_range + (1 - ang_range) * fst (random_sample g) - ang_range / 2)%Q.
Proof.
  unfold sample_ang_rot, bind, np_uniform, ret.
  destruct (random_sample g) as [u g']. reflexivity.
Qed.

(** What the translation and shear lines compute: centred on 0. *)
Lemma sample_centered_draw range g :
  fst (sample_centered range g) =
    Ok (range * (0 + (1 - 0) * fst (random_sample g)) - range / 2)%Q.
Proof.
  unfold sample_centered, bind, np_uniform, ret.
  destruct (random_sample g) as [u g']. reflexivity.
Qed.

(** For a range above 1 the angle stays in [(1 - ang_range / 2, ang_range / 2]]:
    the lower end [- ang_range / 2] of the centred interval is out of reach. *)
Lemma sample_ang_rot_reach `{!RngLaws} ang_range g q :
  (1 < ang_range)%Q ->
  fst (sample_ang_rot ang_range g) = Ok q ->
  (1 - ang_range / 2 < q /\ q <= ang_range / 2)%Q.
Proof.
  intros Hr E. rewrite sample_ang_rot_draw in E. injection E as <-.
  destruct (random_sample_range g) as [Hlo Hhi].
  set (u := fst (random_sample g)) in *. clearbody u.
  assert (K1 : (0 <= (ang_range - 1) * u)%Q) by (apply Qmult_le_0_compat; lra).
  assert (K2 : ((ang_range - 1) * u < (ang_range - 1) * 1)%Q)
    by (apply Qmult_lt_l; lra).
  split; [lra|].
  assert (E : (ang_range + (1 - ang_range) * u - ang_range / 2
               == ang_range / 2 - (ang_range - 1) * u)%Q) by field.
  rewrite E. lra.
Qed.

End Rotation_angle.

(** C3 at [ang_range = 20] and the draw [u = 0]: line 101 yields the angle
    10, where [ang_range * u - ang_range / 2] is -10; the translation line
    yields -10 on the same draw. *)
Lemma transform_image_ang_rot_at_20 :
  fst (sample_ang_rot 20 {| draws := [0%Q]; perms := [] |}) = Ok (20 + (1 - 20) * 0 - 20 / 2)%Q
  /\ (20 + (1 - 20) * 0 - 20 / 2 == 10)%Q
  /\ ~ (20 + (1 - 20) * 0 - 20 / 2 == 20 * 0 - 20 / 2)%Q
  /\ fst (sample_centered 20 {| draws := [0%Q]; perms := [] |})
       = Ok (20 * (0 + (1 - 0) * 0) - 20 / 2)%Q
  /\ (20 * (0 + (1 - 0) * 0) - 20 / 2 == -10)%Q.
Proof.
  split; [reflexivity|]. split; [reflexivity|]. split; [discriminate|].
  split; reflexivity.
Qed.

(** ** The effect monad *)

Section Monad_lemmas.
Context {S : Type}.

Lemma bind_ok {A B} (c : M S A) (k : A -> M S B) s a s' :
  c s = (Ok a, s') -> bind c k s = k a s'.
Proof. intros E. unfold bind. rewrite E. reflexivity. Qed.

Lemma bind_raise {A B} (c : M S A) (k : A -> M S B) s e s' :
  c s = (Raise e, s') -> bind c k s = (Raise e, s').
Proof. intros E. unfold bind. rewrite E. reflexivity. Qed.

Lemma getitem_ok {A} (xs : list A) i x (s : S) :
  xs !! i = Some x -> getitem xs i s = (Ok x, s).
Proof. intros E. unfold getitem. rewrite E. reflexivity. Qed.

Lemma for_each_app {A B} (body : B -> A -> M S B) xs ys acc s :
  for_each body (xs ++ ys) acc s =
  bind (for_each body xs acc) (for_each body ys) s.
Proof.
  revert acc s. induction xs as [|x xs IH]; intros acc s.
  - reflexivity.
  - cbn [app for_each]. unfold bind.
    destruct (body acc x s) as [[acc'|e] s1]; [|reflexivity].
    rewrite IH. unfold bind. reflexivity.
Qed.

End Monad_lemmas.

(** ** gen_extra_data *)

Section Gen_extra_data.
Context `{Cv}.
Variables (x_train : list ndarray) (y_train : list scalar) (n_each : Z).
Variables (ang_range shear_range trans_range : Q) (preprocess : bool).

#[local] Abbreviation transformed_copy' :=
  (transformed_copy ang_range shear_range trans_range preprocess).

Lemma sample_ang_rot_ok a g : exists q g', sample_ang_rot a g = (Ok q, g').
Proof.
  unfold sample_ang_rot, bind, np_uniform, ret.
  destruct (random_sample g) as [u g1]. eauto.
Qed.

Lemma sample_centered_ok a g : exists q g', sample_centered a g = (Ok q, g').
Proof.
  unfold sample_centered, bind, np_uniform, ret.
  destruct (random_sample g) as [u g1]. eauto.
Qed.

(** [transform_image] never raises. *)
Lemma transform_image_ok x g :
  exists img g',
    transform_image x ang_range shear_range trans_range preprocess g = (Ok img, g').
Proof.
  unfold transform_image.
  destruct (sample_ang_rot_ok ang_range g) as (q0 & g0 & E0).
  rewrite (bind_ok _ _ _ _ _ E0).
  destruct (shape x) as [[rows cols] ch].
  destruct (sample_centered_ok trans_range g0) as (q1 & g1 & E1).
  rewrite (bind_ok _ _ _ _ _ E1).
  destruct (sample_centered_ok trans_range g1) as (q2 & g2 & E2).
  rewrite (bind_ok _ _ _ _ _ E2).
  destruct (sample_centered_ok shear_range g2) as (q3 & g3 & E3).
  rewrite (bind_ok _ _ _ _ _ E3).
  destruct (sample_centered_ok shear_range g3) as (q4 & g4 & E4).
  rewrite (bind_ok _ _ _ _ _ E4).
  unfold ret. eauto.
Qed.

(** The inner loop on input [i] appends one transformed copy of [x_train[i]]
    and one [y_train[i]] per round. *)
Lemma gen_copies_rounds i x y (rounds : list nat) acc g :
  x_train !! i = Some x -> y_train !! i = Some y ->
  exists imgs g',
    for_each (fun (acc : list ndarray * list scalar) (i_n : nat) =>
                x <- getitem x_train i ;;
                img_trf <- transform_image x ang_range shear_range trans_range preprocess ;;
                y <- getitem y_train i ;;
                ret (fst acc ++ [img_trf], snd acc ++ [y]))
             rounds acc g
    = (Ok (fst acc ++ imgs, snd acc ++ replicate (length rounds) y), g')
    /\ length imgs = length rounds
    /\ Forall (transformed_copy' x) imgs.
Proof.
  intros Hx Hy. revert acc g.
  induction rounds as [|r rounds IH]; intros acc g.
  - exists [], g. cbn. rewrite !app_nil_r. destruct acc. auto.
  - cbn [for_each].
    destruct (transform_image_ok x g) as (img & g1 & Et).
    destruct (IH (fst acc ++ [img], snd acc ++ [y]) g1) as (imgs & g2 & E & Hl & Hf).
    exists (img :: imgs), g2. split; [|split].
    + unfold bind at 1. unfold bind at 1. rewrite (getitem_ok _ _ _ _ Hx).
      unfold bind at 1. rewrite Et.
      unfold bind at 1. rewrite (getitem_ok _ _ _ _ Hy).
      unfold ret at 1. rewrite E. cbn [fst snd length replicate].
      rewrite <- !app_assoc. reflexivity.
    + cbn. rewrite Hl. reflexivity.
    + constructor; [exists g, g1; exact Et | exact Hf].
Qed.

#[local] Abbreviation copies_upto' :=
  (copies_upto x_train y_train n_each ang_range shear_range trans_range preprocess).

Lemma gen_copies_step m acc g :
  (m < length x_train)%nat -> (m < length y_train)%nat ->
  copies_upto' m acc ->
  exists acc' g',
    gen_copies x_train y_train n_each ang_range shear_range trans_range preprocess
      acc m g = (Ok acc', g')
    /\ copies_upto' (Datatypes.S m) acc'.
Proof.
  intros Hmx Hmy (Hlx & Hly & Hidx).
  destruct (lookup_lt_is_Some_2 x_train m Hmx) as [x Hx].
  destruct (lookup_lt_is_Some_2 y_train m Hmy) as [y Hy].
  unfold gen_copies, range.
  destruct (gen_copies_rounds m x y (seq 0 (Z.to_nat n_each)) acc g Hx Hy)
    as (imgs & g' & E & Hl & Hf).
  rewrite length_seq in E, Hl.
  eexists _, g'. split; [exact E|].
  unfold copies_upto. cbn [fst snd]. set (n := Z.to_nat n_each) in *.
  rewrite !length_app, length_replicate, Hlx, Hly, Hl.
  split; [lia|]. split; [lia|].
  intros i j Hi Hj.
  destruct (decide (i = m)) as [->|Hne].
  - destruct (lookup_lt_is_Some_2 imgs j) as [img Himg]; [lia|].
    exists x, y, img. split; [exact Hx|]. split; [exact Hy|].
    split; [eapply Forall_lookup_1; eauto|].
    split.
    + rewrite lookup_app_r by lia.
      replace (m * n + j - length (fst acc))%nat with j by lia. exact Himg.
    + rewrite lookup_app_r by lia.
      replace (m * n + j - length (snd acc))%nat with j by lia.
      apply lookup_replicate_2. exact Hj.
  - destruct (Hidx i j) as (x' & y' & img & Hx' & Hy' & Ht & Hxi & Hyi); [lia|exact Hj|].
    exists x', y', img. split; [exact Hx'|]. split; [exact Hy'|].
    split; [exact Ht|].
    assert (i * n + j < m * n)%nat by nia.
    split; rewrite lookup_app_l by lia; assumption.
Qed.

Lemma gen_copies_loop m g :
  (m <= length x_train)%nat -> (m <= length y_train)%nat ->
  exists acc g',
    for_each (gen_copies x_train y_train n_each ang_range shear_range trans_range
                preprocess) (seq 0 m) ([], []) g = (Ok acc, g')
    /\ copies_upto' m acc.
Proof.
  induction m as [|m IH]; intros Hx Hy.
  - exists ([], []), g. split; [reflexivity|].
    unfold copies_upto. cbn. split; [reflexivity|]. split; [reflexivity|]. lia.
  - destruct IH as (acc & g1 & E & Hinv); [lia|lia|].
    destruct (gen_copies_step m acc g1) as (acc' & g2 & E' & Hinv'); [lia|lia|exact Hinv|].
    exists acc', g2. split; [|exact Hinv'].
    rewrite seq_S, for_each_app. cbn [Nat.add].
    rewrite (bind_ok _ _ _ _ _ E). cbn [for_each].
    rewrite (bind_ok _ _ _ _ _ E'). reflexivity.
Qed.

End Gen_extra_data.

(** ** The replayed generator keeps numpy's promises *)

Lemma tape_sample_range g :
  (0 <= fst (tape_sample g) /\ fst (tape_sample g) < 1)%Q.
Proof.
  unfold tape_sample. destruct (draws g) as [|u us]; cbn [fst].
  - split; [apply Qle_refl | reflexivity].
  - destruct (Qle_bool 0 u) eqn:E0; cbn [andb].
    + destruct (Qle_bool 1 u) eqn:E1; cbn [negb].
      * split; [apply Qle_refl | reflexivity].
      * split; [apply Qle_bool_iff; exact E0|].
        apply Qnot_le_lt. intros Hle. apply Qle_bool_iff in Hle. congruence.
    + split; [apply Qle_refl | reflexivity].
Qed.

Lemma tape_shuffle_perm l g : Permutation (fst (tape_shuffle l g)) l.
Proof.
  unfold tape_shuffle. destruct (perms g) as [|p ps]; cbn [fst]; [reflexivity|].
  destruct (bool_decide (p ≡ₚ l)) eqn:E; [|reflexivity].
  apply bool_decide_eq_true in E. exact E.
Qed.

#[local] Instance replay_rng_laws : @RngLaws replay_cv.
Proof. split; [exact tape_sample_range | exact tape_shuffle_perm]. Qed.

(** ** Index assignment [a[idx] = v] *)

Section Scatter.
Context {A : Type}.
Implicit Types (a v : list A) (idx : list nat).

Lemma length_scatter a idx v : length (scatter a idx v) = length a.
Proof.
  unfold scatter. revert a v.
  induction idx as [|i idx IH]; intros a [|x v]; cbn; try reflexivity.
  rewrite IH. apply length_insert.
Qed.

(** A row no index names keeps its old content. *)
Lemma scatter_lookup_notin a idx v i :
  i ∉ idx -> scatter a idx v !! i = a !! i.
Proof.
  unfold scatter. revert a v.
  induction idx as [|j idx IH]; intros a [|x v] Hni; cbn; try reflexivity.
  apply not_elem_of_cons in Hni as [Hne Hni].
  rewrite IH by exact Hni. apply list_lookup_insert_ne. congruence.
Qed.

(** Row [idx[k]] receives [v[k]]. *)
Lemma scatter_lookup a idx v k i x :
  NoDup idx -> (i < length a)%nat ->
  idx !! k = Some i -> v !! k = Some x ->
  scatter a idx v !! i = Some x.
Proof.
  revert a v k.
  induction idx as [|j idx IH]; intros a [|y v] k Hnd Hlt Hi Hx;
    try (destruct k; discriminate).
  apply NoDup_cons in Hnd as [Hnj Hnd].
  destruct k as [|k]; cbn in Hi, Hx.
  - injection Hi as ->. injection Hx as ->.
    change (scatter (<[i:=x]> a) idx v !! i = Some x).
    rewrite scatter_lookup_notin by exact Hnj.
    apply list_lookup_insert_eq. exact Hlt.
  - change (scatter (<[j:=y]> a) idx v !! i = Some x).
    apply (IH _ _ k); try assumption. rewrite length_insert. exact Hlt.
Qed.

(** With the identity for index the assignment changes nothing. *)
Lemma scatter_identity a : scatter a (seq 0 (length a)) a = a.
Proof.
  apply list_eq. intros i.
  destruct (a !! i) as [x|] eqn:E.
  - apply (scatter_lookup _ _ _ i).
    + apply NoDup_seq.
    + eapply lookup_lt_Some; eauto.
    + apply lookup_seq. split; [reflexivity|]. eapply lookup_lt_Some; eauto.
    + exact E.
  - apply lookup_ge_None. rewrite length_scatter. apply lookup_ge_None. exact E.
Qed.

(** With a permutation of the row numbers for index, the rows of [v] are
    all kept and only change place. *)
Lemma scatter_Permutation a idx v :
  Permutation idx (seq 0 (length a)) -> length v = length a ->
  Permutation (scatter a idx v) v.
Proof.
  intros Hp Hl. symmetry. apply Permutation_inj.
  split; [rewrite length_scatter; exact Hl|].
  assert (Hnd : NoDup idx) by (rewrite Hp; apply NoDup_seq).
  assert (Hlen : length idx = length a)
    by (rewrite (Permutation_length Hp); apply length_seq).
  assert (Hin : forall k i, idx !! k = Some i -> (i < length a)%nat).
  { intros k i Hk. apply list_elem_of_lookup_2 in Hk. rewrite Hp in Hk.
    apply elem_of_seq in Hk. lia. }
  exists (fun k => default k (idx !! k)). split.
  - intros k1 k2 E.
    destruct (idx !! k1) as [i1|] eqn:E1; destruct (idx !! k2) as [i2|] eqn:E2;
      cbn in E.
    + subst i2. eapply NoDup_lookup; eauto.
    + subst i1. apply Hin in E1. apply lookup_ge_None in E2. lia.
    + subst i2. apply Hin in E2. apply lookup_ge_None in E1. lia.
    + exact E.
  - intros k. destruct (idx !! k) as [i|] eqn:E; cbn.
    + destruct (lookup_lt_is_Some_2 v k) as [x Hx].
      { apply lookup_lt_Some in E. lia. }
      rewrite Hx. symmetry. apply (scatter_lookup _ _ _ k); eauto.
    + apply lookup_ge_None in E.
      rewrite (proj2 (lookup_ge_None v k)) by lia.
      symmetry. apply lookup_ge_None. rewrite length_scatter. lia.
Qed.

(** The assignment [a[idx] = a] of [gen_extra_data] goes through. *)
Lemma setitem_fancy_perm {S} a idx (s : S) :
  Permutation idx (seq 0 (length a)) ->
  setitem_fancy a idx a s = (Ok (scatter a idx a), s).
Proof.
  intros Hp. unfold setitem_fancy.
  rewrite (Permutation_length Hp), length_seq, Nat.eqb_refl. cbn [negb].
  replace (forallb (fun i => (i <? length a)%nat) idx) with true; [reflexivity|].
  symmetry. apply forallb_forall. intros i Hi. apply Nat.ltb_lt.
  apply (Permutation_in _ Hp) in Hi. apply in_seq in Hi. lia.
Qed.

End Scatter.

Section Gen_extra_data_results.
Context `{RngLaws}.
Variables (x_train : list ndarray) (y_train : list scalar) (n_each : Z).
Variables (ang_range shear_range trans_range : Q) (preprocess : bool).

#[local] Abbreviation run randomize_var :=
  (gen_extra_data x_train y_train n_each ang_range shear_range trans_range
     randomize_var preprocess).

(** Both paths of [gen_extra_data], from the two loops on. *)
Lemma gen_extra_data_paths g :
  (length x_train <= length y_train)%nat ->
  exists acc g1,
    copies_upto x_train y_train n_each ang_range shear_range trans_range preprocess
      (length x_train) acc
    /\ let x_arr := as_float32 <$> fst acc in
       let y_arr := scalar_float32 <$> snd acc in
       let len_arr := fst (shuffle (seq 0 (length y_arr)) g1) in
       (forall randomize_var, randomize_var <> 1 ->
          run randomize_var g = (Ok (x_arr, y_arr), g1))
       /\ run 1 g = (Ok (scatter x_arr len_arr x_arr, scatter y_arr len_arr y_arr),
                     snd (shuffle (seq 0 (length y_arr)) g1)).
Proof.
  intros Hlen.
  destruct (gen_copies_loop x_train y_train n_each ang_range shear_range trans_range
              preprocess (length x_train) g) as (acc & g1 & E & Hinv); [lia|lia|].
  exists acc, g1. split; [exact Hinv|]. cbn zeta. split.
  - intros rv Hrv. unfold gen_extra_data. rewrite (bind_ok _ _ _ _ _ E).
    apply Z.eqb_neq in Hrv. rewrite Hrv. reflexivity.
  - unfold gen_extra_data. rewrite (bind_ok _ _ _ _ _ E). cbn [Z.eqb Pos.eqb].
    destruct Hinv as (Hlx & Hly & _).
    set (y_arr := scalar_float32 <$> snd acc).
    set (x_arr := as_float32 <$> fst acc).
    assert (Hxy : length x_arr = length y_arr).
    { unfold x_arr, y_arr. rewrite !length_fmap. congruence. }
    unfold bind at 1. unfold np_shuffle.
    pose proof (shuffle_perm (seq 0 (length y_arr)) g1) as Hp.
    destruct (shuffle (seq 0 (length y_arr)) g1) as [len_arr g2]. cbn [fst snd] in *.
    rewrite (bind_ok _ _ _ _ _ (setitem_fancy_perm x_arr len_arr g2
                                  ltac:(rewrite Hxy; exact Hp))).
    rewrite (bind_ok _ _ _ _ _ (setitem_fancy_perm y_arr len_arr g2 Hp)).
    reflexivity.
Qed.

End Gen_extra_data_results.

(** C7: with a label for every image, [gen_extra_data] returns
    [n_train * n_each] images and as many labels, shuffled or not; without
    the shuffle, entry [i * n_each + j] is a transformed copy of
    [x_train[i]] (cast to float32) with the label [y_train[i]]. *)
Theorem gen_extra_data_cardinality `{RngLaws} (x_train : list ndarray)
    (y_train : list scalar) (n_each : Z) (ang_range shear_range trans_range : Q)
    (randomize_var : Z) (preprocess : bool) (g : rng) :
  (length x_train <= length y_train)%nat ->
  exists x_arr y_arr g',
    gen_extra_data x_train y_train n_each ang_range shear_range trans_range
      randomize_var preprocess g = (Ok (x_arr, y_arr), g')
    /\ length x_arr = (length x_train * Z.to_nat n_each)%nat
    /\ length y_arr = (length x_train * Z.to_nat n_each)%nat
    /\ (0 <= n_each ->
        Z.of_nat (length x_arr) = Z.of_nat (length x_train) * n_each
        /\ Z.of_nat (length y_arr) = Z.of_nat (length x_train) * n_each)
    /\ (randomize_var <> 1 ->
        forall i j, (i < length x_train)%nat -> (j < Z.to_nat n_each)%nat ->
          exists x y img,
            x_train !! i = Some x /\ y_train !! i = Some y
            /\ transformed_copy ang_range shear_range trans_range preprocess x img
            /\ x_arr !! (i * Z.to_nat n_each + j)%nat = Some (as_float32 img)
            /\ y_arr !! (i * Z.to_nat n_each + j)%nat = Some (scalar_float32 y)).
Proof.
  intros Hlen.
  destruct (gen_extra_data_paths x_train y_train n_each ang_range shear_range
              trans_range preprocess g Hlen)
    as (acc & g1 & (Hlx & Hly & Hidx) & Hplain & Hshuf).
  cbn zeta in Hplain, Hshuf.
  destruct (Z.eq_dec randomize_var 1) as [->|Hrv].
  - eexists _, _, _. split; [exact Hshuf|].
    rewrite !length_scatter, !length_fmap, Hlx, Hly.
    split; [reflexivity|]. split; [reflexivity|]. split; [lia|].
    intros Hne. contradiction.
  - eexists _, _, _. split; [exact (Hplain _ Hrv)|].
    rewrite !length_fmap, Hlx, Hly.
    split; [reflexivity|]. split; [reflexivity|]. split; [lia|].
    intros _ i j Hi Hj.
    destruct (Hidx i j Hi Hj) as (x & y & img & Hx & Hy & Ht & Hxi & Hyi).
    exists x, y, img. rewrite !list_lookup_fmap, Hxi, Hyi. auto.
Qed.

(** C2, amended: with [randomize_var = 1] the two assignments move row [k]
    of each array to row [len_arr[k]], for the one permutation [len_arr]
    drawn after the transformations.  The returned arrays hold the rows of
    the unshuffled ones in another order, images and labels still aligned;
    they are the unshuffled arrays when the permutation drawn is the
    identity. *)
Theorem gen_extra_data_shuffle_scatters `{RngLaws} (x_train : list ndarray)
    (y_train : list scalar) (n_each : Z) (ang_range shear_range trans_range : Q)
    (randomize_var : Z) (preprocess : bool) (g : rng) :
  (length x_train <= length y_train)%nat ->
  randomize_var <> 1 ->
  exists x0 y0 g0 x1 y1,
    gen_extra_data x_train y_train n_each ang_range shear_range trans_range
      randomize_var preprocess g = (Ok (x0, y0), g0)
    /\ let len_arr := fst (shuffle (seq 0 (length y0)) g0) in
       gen_extra_data x_train y_train n_each ang_range shear_range trans_range
         1 preprocess g = (Ok (x1, y1), snd (shuffle (seq 0 (length y0)) g0))
       /\ (forall k i, len_arr !! k = Some i ->
             x1 !! i = x0 !! k /\ y1 !! i = y0 !! k)
       /\ Permutation x1 x0 /\ Permutation y1 y0
       /\ (len_arr = seq 0 (length y0) -> x1 = x0 /\ y1 = y0).
Proof.
  intros Hlen Hrv.
  destruct (gen_extra_data_paths x_train y_train n_each ang_range shear_range
              trans_range preprocess g Hlen)
    as (acc & g1 & (Hlx & Hly & _) & Hplain & Hshuf).
  cbn zeta in Hplain, Hshuf.
  set (x0 := as_float32 <$> fst acc) in *.
  set (y0 := scalar_float32 <$> snd acc) in *.
  assert (Hxy : length x0 = length y0).
  { unfold x0, y0. rewrite !length_fmap. congruence. }
  pose proof (shuffle_perm (seq 0 (length y0)) g1) as Hp.
  set (len_arr := fst (shuffle (seq 0 (length y0)) g1)) in *.
  assert (Hnd : NoDup len_arr) by (rewrite Hp; apply NoDup_seq).
  exists x0, y0, g1, (scatter x0 len_arr x0), (scatter y0 len_arr y0).
  split; [exact (Hplain _ Hrv)|]. cbn zeta. fold len_arr.
  split; [exact Hshuf|]. split; [|split; [|split]].
  - intros k i Hk.
    assert (Hi : (i < length y0)%nat).
    { apply list_elem_of_lookup_2 in Hk. rewrite Hp in Hk.
      apply elem_of_seq in Hk. lia. }
    assert (Hkl : (k < length y0)%nat).
    { apply lookup_lt_Some in Hk. rewrite (Permutation_length Hp), length_seq in Hk.
      exact Hk. }
    destruct (lookup_lt_is_Some_2 x0 k) as [x Hx]; [lia|].
    destruct (lookup_lt_is_Some_2 y0 k) as [y Hy]; [lia|].
    rewrite Hx, Hy. split; apply (scatter_lookup _ _ _ k); auto; lia.
  - apply scatter_Permutation; [rewrite Hxy; exact Hp | reflexivity].
  - apply scatter_Permutation; [exact Hp | reflexivity].
  - intros ->. split; [rewrite <- Hxy|]; apply scatter_identity.
Qed.

(** ** Strings in code-point order, and [sorted] *)

Section Sorted_strings.

Lemma ascii_compare_refl c : Ascii.compare c c = Eq.
Proof. unfold Ascii.compare. apply N.compare_refl. Qed.

Lemma string_compare_trans_le a b c :
  String.compare a b <> Gt -> String.compare b c <> Gt -> String.compare a c <> Gt.
Proof.
  revert b c. induction a as [|a0 a IH]; intros [|b0 b] [|c0 c]; cbn;
    try congruence.
  unfold Ascii.compare.
  destruct (N.compare_spec (Ascii.N_of_ascii a0) (Ascii.N_of_ascii b0)) as [E1|L1|G1];
    destruct (N.compare_spec (Ascii.N_of_ascii b0) (Ascii.N_of_ascii c0)) as [E2|L2|G2];
    destruct (N.compare_spec (Ascii.N_of_ascii a0) (Ascii.N_of_ascii c0)) as [E3|L3|G3];
    try congruence; try (intros; exfalso; lia); try (intros; discriminate).
  apply IH.
Qed.

Lemma leb_trans a b c :
  String.leb a b = true -> String.leb b c = true -> String.leb a c = true.
Proof.
  unfold String.leb. intros H1 H2.
  pose proof (string_compare_trans_le a b c) as T.
  destruct (String.compare a b), (String.compare b c), (String.compare a c);
    try reflexivity; try discriminate; exfalso; apply T; congruence.
Qed.

Lemma insert_sorted_Permutation x xs : Permutation (insert_sorted x xs) (x :: xs).
Proof.
  induction xs as [|y ys IH]; cbn; [reflexivity|].
  destruct (String.leb x y); [reflexivity|].
  rewrite IH. apply perm_swap.
Qed.

Lemma sorted_Permutation xs : Permutation (sorted xs) xs.
Proof.
  induction xs as [|x xs IH]; cbn; [reflexivity|].
  rewrite insert_sorted_Permutation, IH. reflexivity.
Qed.

Lemma leb_refl a : String.leb a a = true.
Proof. destruct (String.leb_total a a); assumption. Qed.

Lemma insert_sorted_ascending x xs : ascending xs -> ascending (insert_sorted x xs).
Proof.
  induction xs as [|y ys IH]; cbn; intros Hs.
  - split; [|exact I]. intros y Hy. inversion Hy.
  - destruct Hs as [Hy Hs]. destruct (String.leb x y) eqn:E; cbn.
    + split; [|split; assumption].
      intros z Hz. apply elem_of_cons in Hz as [->|Hz]; [exact E|].
      apply (leb_trans _ y); auto.
    + split; [|apply IH; exact Hs].
      intros z Hz. rewrite insert_sorted_Permutation in Hz.
      apply elem_of_cons in Hz as [->|Hz]; [|auto].
      destruct (String.leb_total x y) as [F|F]; [congruence|exact F].
Qed.

Lemma sorted_ascending xs : ascending (sorted xs).
Proof.
  induction xs as [|x xs IH]; cbn; [exact I|].
  apply insert_sorted_ascending. exact IH.
Qed.

Lemma ascending_last xs m :
  ascending xs -> last xs = Some m -> forall y, y ∈ xs -> String.leb y m = true.
Proof.
  intros Hs Hl.
  induction xs as [|x xs IH]; [discriminate|].
  destruct Hs as [Hx Hs]. intros y Hy.
  destruct xs as [|x' xs].
  - cbn in Hl. injection Hl as <-. apply list_elem_of_singleton in Hy as ->.
    apply leb_refl.
  - change (last (x' :: xs) = Some m) in Hl.
    assert (Hm : m ∈ x' :: xs).
    { apply last_Some in Hl as [l' ->]. apply elem_of_app. right. left. }
    apply elem_of_cons in Hy as [->|Hy]; [apply Hx; exact Hm|].
    apply IH; assumption.
Qed.

(** [sorted(files)[-1]] is an entry of [files], the greatest. *)
Lemma sorted_last files m :
  last (sorted files) = Some m ->
  m ∈ files /\ forall y, y ∈ files -> String.leb y m = true.
Proof.
  intros Hl. pose proof (ascending_last _ _ (sorted_ascending files) Hl) as Hmax.
  split.
  - rewrite <- (sorted_Permutation files).
    apply last_Some in Hl as [l' ->]. apply elem_of_app. right. left.
  - intros y Hy. apply Hmax. rewrite (sorted_Permutation files). exact Hy.
Qed.

Lemma sorted_last_is_Some files : files <> [] -> is_Some (last (sorted files)).
Proof.
  intros Hne. destruct (last (sorted files)) eqn:E; [eauto|].
  apply last_None in E. pose proof (sorted_Permutation files) as P.
  rewrite E in P. apply Permutation_nil in P. contradiction.
Qed.

End Sorted_strings.

(** ** The loop of test_regime_a *)

Section Attack_loop.
Context `{Env} (G : test_globals) (images : list image) (labels : list label).

Lemma attacked_app evs1 evs2 : attacked (evs1 ++ evs2) = attacked evs1 ++ attacked evs2.
Proof. apply omap_app. Qed.

Lemma attack_successes_app evs1 evs2 :
  attack_successes (evs1 ++ evs2) = attack_successes evs1 + attack_successes evs2.
Proof.
  unfold attack_successes. induction evs1 as [|e evs1 IH]; cbn; [reflexivity|].
  rewrite IH. destruct e; lia.
Qed.

Lemma attack_queries_app evs1 evs2 :
  attack_queries (evs1 ++ evs2) = attack_queries evs1 + attack_queries evs2.
Proof.
  unfold attack_queries. induction evs1 as [|e evs1 IH]; cbn; [reflexivity|].
  rewrite IH. destruct e; lia.
Qed.




(** One round, whatever its outcome: a round that raises has called nothing,
    a round that ends has called [attack] once if the image is bright and
    not at all if it is dark. *)
Lemma attack_step_outcome acc i st :
  match attack_step G images labels acc i st with
  | (Ok acc', st') =>
      exists evs,
        acc' = (fst acc + attack_successes evs, snd acc + attack_queries evs)
        /\ log st' = log st ++ evs
        /\ attacked evs = (if bright G images labels i then [i] else [])
        /\ length (attacked evs) = length evs
  | (Raise e, st') => st' = st
  end.
Proof.
  unfold attack_step, bright, masked_brightness, getitem, subscript.
  destruct (labels !! i) as [lbl|]; [|destruct (images !! i); reflexivity].
  destruct (images !! i) as [img|]; [|reflexivity].
  unfold bind at 1, ret at 1. unfold bind at 1, ret at 1.
  destruct (MASK_LIST G (judge_mask_type "GTSRB" lbl)) as [m|]; [|reflexivity].
  unfold bind at 1, ret at 1.
  destruct (Qle_bool 120 (brightness img m)).
  - unfold bind at 1, ret at 1. unfold bind at 1, ret at 1.
    destruct (POSITION_LIST G (judge_mask_type "GTSRB" lbl)) as [pos|]; [|reflexivity].
    unfold bind at 1, ret at 1. unfold bind, call_attack, ret.
    destruct (attack img lbl pos (orc st)) as [[[img' success] num_query] o'].
    cbn [fst snd]. exists [EvAttack i success num_query].
    cbn. rewrite !Z.add_0_r. auto.
  - exists []. cbn. rewrite !Z.add_0_r, app_nil_r. destruct acc. auto.
Qed.

(** The rounds over [idxs], whatever their outcome: a loop that raises has
    done the rounds before the failing one. *)
Lemma attack_rounds_outcome idxs acc st :
  match for_each (attack_step G images labels) idxs acc st with
  | (Ok acc', st') =>
      exists evs,
        acc' = (fst acc + attack_successes evs, snd acc + attack_queries evs)
        /\ log st' = log st ++ evs
        /\ attacked evs = List.filter (bright G images labels) idxs
        /\ length (attacked evs) = length evs
  | (Raise e, st') =>
      exists evs k,
        (k < length idxs)%nat
        /\ log st' = log st ++ evs
        /\ attacked evs = List.filter (bright G images labels) (take k idxs)
        /\ length (attacked evs) = length evs
  end.
Proof.
  revert acc st. induction idxs as [|i idxs IH]; intros acc st.
  - exists []. cbn. rewrite !Z.add_0_r, app_nil_r. destruct acc. auto.
  - cbn [for_each]. unfold bind.
    pose proof (attack_step_outcome acc i st) as S1.
    destruct (attack_step G images labels acc i st) as [[acc1|e] st1].
    + destruct S1 as (evs1 & -> & L1 & A1 & N1).
      pose proof (IH (fst acc + attack_successes evs1, snd acc + attack_queries evs1) st1)
        as S2.
      destruct (for_each _ idxs _ st1) as [[acc2|e] st2].
      * destruct S2 as (evs2 & -> & L2 & A2 & N2). exists (evs1 ++ evs2).
        cbn [fst snd]. rewrite attack_successes_app, attack_queries_app, !Z.add_assoc.
        split; [reflexivity|]. split; [rewrite L2, L1, app_assoc; reflexivity|].
        split.
        -- rewrite attacked_app, A1, A2. cbn [List.filter].
           destruct (bright G images labels i); reflexivity.
        -- rewrite attacked_app, !length_app, N1, N2. reflexivity.
      * destruct S2 as (evs2 & k & Hk & L2 & A2 & N2).
        exists (evs1 ++ evs2), (Datatypes.S k). cbn [length take].
        split; [lia|]. split; [rewrite L2, L1, app_assoc; reflexivity|].
        split.
        -- rewrite attacked_app, A1, A2. cbn [List.filter].
           destruct (bright G images labels i); reflexivity.
        -- rewrite attacked_app, !length_app, N1, N2. reflexivity.
    + subst st1. exists [], 0%nat. cbn. rewrite app_nil_r.
      split; [lia|]. auto.
Qed.


End Attack_loop.


(** ** Floats *)

Section Rounding.


Lemma round_half_even_frac_lower num den a :
  0 < den -> a * den <= num -> a <= round_half_even_frac num den.
Proof.
  intros Hd Hn. unfold round_half_even_frac.
  pose proof (Z.div_mod num den ltac:(lia)) as Hm.
  pose proof (Z.mod_pos_bound num den Hd) as Hr.
  set (q := num / den) in *. set (r := num mod den) in *. clearbody q r.
  assert (a <= q) by nia.
  destruct (2 * r ?= den); [destruct (Z.even q)|..]; lia.
Qed.

Lemma round_half_even_frac_upper num den b :
  0 < den -> num <= b * den -> round_half_even_frac num den <= b.
Proof.
  intros Hd Hn. unfold round_half_even_frac.
  pose proof (Z.div_mod num den ltac:(lia)) as Hm.
  pose proof (Z.mod_pos_bound num den Hd) as Hr.
  set (q := num / den) in *. set (r := num mod den) in *. clearbody q r.
  assert (q <= b) by nia.
  destruct (Z.compare_spec (2 * r) den) as [E|L|G]; [destruct (Z.even q)|..]; nia.
Qed.

(** [ilog2 n d] is not above the logarithm of [n / d]. *)
Lemma ilog2_lower n d :
  0 < n -> 0 < d -> 1 <= ilog2 n d -> d * 2 ^ ilog2 n d <= n.
Proof.
  intros Hn Hd. unfold ilog2.
  pose proof (Z.log2_spec n Hn) as [Ln Un].
  pose proof (Z.log2_spec d Hd) as [Ld Ud].
  pose proof (Z.log2_nonneg n) as Nn.
  pose proof (Z.log2_nonneg d) as Nd.
  set (ln := Z.log2 n) in *. set (ld := Z.log2 d) in *. clearbody ln ld.
  set (t := ln - ld).
  destruct (Z.ltb_spec (n * 2 ^ Z.max 0 (- t)) (d * 2 ^ Z.max 0 t)) as [Hlt|Hge];
    intros H1.
  - assert (Ht : 2 <= t) by lia.
    assert (E : 2 ^ ln = 2 ^ (ld + 1) * 2 ^ (t - 1)).
    { rewrite <- Z.pow_add_r by lia. f_equal. unfold t. lia. }
    assert (0 < 2 ^ (t - 1)) by (apply Z.pow_pos_nonneg; lia).
    rewrite Z.pow_succ_r in Ud by lia. rewrite Z.pow_add_r in E by lia.
    change (2 ^ 1) with 2 in E. nia.
  - assert (Ht : 1 <= t) by lia.
    rewrite (Z.max_l 0 (- t)), (Z.max_r 0 t) in Hge by lia.
    change (2 ^ 0) with 1 in Hge. lia.
Qed.


Lemma double_nonneg q : (0 <= q)%Q -> (0 <= double q)%Q.
Proof.
  destruct q as [n d]. unfold Qle. cbn [Qnum Qden]. rewrite Z.mul_1_r. intros Hn.
  unfold double. cbn [Qnum Qden].
  destruct (Z.abs n =? 0); [cbn; lia|].
  set (e := Z.max (ilog2 (Z.abs n) (Z.pos d) - 52) (-1074)).
  assert (Hs : 0 <= Z.sgn n) by lia.
  destruct (0 <=? e) eqn:He.
  - apply Z.leb_le in He. cbn [Qnum Qden inject_Z]. rewrite Z.mul_1_r.
    assert (0 <= round_half_even_frac (Z.abs n) (Z.pos d * 2 ^ e)).
    { apply round_half_even_frac_lower; [|lia].
      apply Z.mul_pos_pos; [lia|]. apply Z.pow_pos_nonneg; lia. }
    assert (0 <= 2 ^ e) by (apply Z.pow_nonneg; lia).
    nia.
  - cbn [Qnum Qden]. rewrite Z.mul_1_r.
    assert (0 <= round_half_even_frac (Z.abs n * 2 ^ (- e)) (Z.pos d)).
    { apply round_half_even_frac_lower; [lia|].
      assert (0 <= 2 ^ (- e)) by (apply Z.pow_nonneg; lia). nia. }
    nia.
Qed.

(** Rounding does not cross an integer that is a double. *)
Lemma double_le_int q z :
  0 <= z < 2 ^ 53 -> (0 <= q)%Q -> (q <= inject_Z z)%Q -> (double q <= inject_Z z)%Q.
Proof.
  destruct q as [n d]. unfold Qle. cbn [Qnum Qden inject_Z].
  rewrite !Z.mul_1_r. intros Hz Hn Hle.
  unfold double. cbn [Qnum Qden].
  destruct (Z.eqb_spec (Z.abs n) 0) as [E0|Hn0]; [cbn; lia|].
  rewrite Z.abs_eq in * by lia. rewrite Z.sgn_pos by lia. rewrite !Z.mul_1_l.
  pose proof (ilog2_lower n (Z.pos d) ltac:(lia) ltac:(lia)) as Hlog.
  set (L := ilog2 n (Z.pos d)) in *. clearbody L.
  destruct (Z.leb_spec 0 (Z.max (L - 52) (-1074))) as [He|He].
  - cbn [Qnum Qden inject_Z]. rewrite Z.mul_1_r.
    destruct (Z.eq_dec (Z.max (L - 52) (-1074)) 0) as [E|E].
    + rewrite E. change (2 ^ 0) with 1. rewrite !Z.mul_1_r.
      apply round_half_even_frac_upper; lia.
    + exfalso. assert (HL : 53 <= L) by lia. specialize (Hlog ltac:(lia)).
      assert (2 ^ 53 <= 2 ^ L) by (apply Z.pow_le_mono_r; lia).
      nia.
  - set (e := Z.max (L - 52) (-1074)) in *.
    assert (Hp : 0 < 2 ^ (- e)) by (apply Z.pow_pos_nonneg; lia).
    cbn [Qnum Qden]. rewrite Z2Pos.id by exact Hp.
    assert (round_half_even_frac (n * 2 ^ (- e)) (Z.pos d) <= z * 2 ^ (- e)).
    { apply round_half_even_frac_upper; [lia|]. nia. }
    lia.
Qed.






(** [x * 10000], rounded to an integer, between the integers that bound
    [x]. *)
Lemma round_4_places x :
  (forall a, (inject_Z a <= x)%Q -> a * 10000 <= round_half_even (x * inject_Z 10000))
  /\ (forall b, (x <= inject_Z b)%Q -> round_half_even (x * inject_Z 10000) <= b * 10000).
Proof.
  destruct x as [n d]. unfold round_half_even.
  cbn [Qnum Qden Qmult inject_Z]. rewrite Pos.mul_1_r. split.
  - intros a Ha. unfold Qle in Ha. cbn in Ha.
    apply round_half_even_frac_lower; lia.
  - intros b Hb. unfold Qle in Hb. cbn in Hb.
    apply round_half_even_frac_upper; lia.
Qed.


Lemma py_round_nonneg x : (0 <= x)%Q -> (0 <= py_round x 4)%Q.
Proof.
  intros Hx. unfold py_round. change (10 ^ Z.of_nat 4) with 10000.
  apply double_nonneg. apply Qle_shift_div_l; [reflexivity|].
  rewrite Qmult_0_l. change 0%Q with (inject_Z 0). rewrite <- Zle_Qle.
  apply (proj1 (round_4_places x) 0). exact Hx.
Qed.

(** Rounding to four places keeps a ratio between 0 and 1. *)
Lemma py_round_unit x :
  (0 <= x)%Q -> (x <= 1)%Q -> (0 <= py_round x 4 /\ py_round x 4 <= 1)%Q.
Proof.
  intros Hlo Hhi. split; [apply py_round_nonneg; exact Hlo|].
  unfold py_round. change (10 ^ Z.of_nat 4) with 10000.
  destruct (round_4_places x) as [Ha Hb].
  specialize (Ha 0 Hlo). specialize (Hb 1 Hhi).
  set (k := round_half_even (x * inject_Z 10000)) in *. clearbody k.
  apply (double_le_int _ 1); [split; [clear; lia | reflexivity] | |].
  - apply Qle_shift_div_l; [reflexivity|]. rewrite Qmult_0_l.
    change 0%Q with (inject_Z 0). rewrite <- Zle_Qle. lia.
  - apply Qle_shift_div_r; [reflexivity|]. rewrite Qmult_1_l.
    rewrite <- Zle_Qle. lia.
Qed.

(** [1 - y] stays between 0 and 1 with [y]. *)
Lemma one_minus_unit y :
  (0 <= y)%Q -> (y <= 1)%Q -> (0 <= double (1 - y) /\ double (1 - y) <= 1)%Q.
Proof.
  intros Hlo Hhi. split.
  - apply double_nonneg. lra.
  - apply (double_le_int _ 1);
      [split; [clear; lia | reflexivity] | lra | change (inject_Z 1) with 1%Q; lra].
Qed.

(** A ratio of two counts. *)
Lemma int_truediv_unit (a : Z) (n : nat) r :
  0 <= a <= Z.of_nat n -> int_truediv a n = Ok r -> (0 <= r /\ r <= 1)%Q.
Proof.
  intros Ha. unfold int_truediv. destruct n as [|n']; [discriminate|].
  destruct (overflows _); [discriminate|]. intros [= <-].
  assert (Hpos : (0 < inject_Z (Z.of_nat (Datatypes.S n')))%Q).
  { change 0%Q with (inject_Z 0). rewrite <- Zlt_Qlt. lia. }
  assert (Hlo : (0 <= inject_Z a / inject_Z (Z.of_nat (Datatypes.S n')))%Q).
  { apply Qle_shift_div_l; [exact Hpos|]. rewrite Qmult_0_l.
    change 0%Q with (inject_Z 0). rewrite <- Zle_Qle. lia. }
  split; [apply double_nonneg; exact Hlo|].
  apply (double_le_int _ 1); [split; [clear; lia | reflexivity] | exact Hlo |].
  apply Qle_shift_div_r; [exact Hpos|]. rewrite Qmult_1_l.
  rewrite <- Zle_Qle. lia.
Qed.

Lemma attack_successes_bounds evs :
  0 <= attack_successes evs <= Z.of_nat (length (attacked evs)).
Proof.
  induction evs as [|e evs IH]; [cbn; lia|].
  unfold attack_successes, attacked in *.
  destruct e as [| | | | | | | | |i s q| |]; cbn in *; try lia.
  destruct s; cbn [Z.b2z]; lia.
Qed.

End Rounding.



(** An empty test set stops line 53 on its division. *)
Lemma evaluate_empty_test_set `{Env} (G : test_globals) (labels : list label) (st : proc) :
  evaluate G [] labels st = (Raise ZeroDivisionError, st).
Proof. reflexivity. Qed.

(** ** The log only grows *)

Section Log_growth.
Context `{Env}.

Lemma extends_ret {A} (a : A) : extends (ret a).
Proof. intros st. exists []. cbn. rewrite app_nil_r. reflexivity. Qed.

Lemma extends_raise {A} e : extends (raise e : M proc A).
Proof. intros st. exists []. cbn. rewrite app_nil_r. reflexivity. Qed.

Lemma extends_lift {A} (r : result A) : extends (lift r).
Proof. intros st. exists []. cbn. rewrite app_nil_r. reflexivity. Qed.

Lemma extends_emit e : extends (emit e).
Proof. intros st. exists [e]. reflexivity. Qed.

Lemma extends_bind {A B} (c : M proc A) (k : A -> M proc B) :
  extends c -> (forall a, extends (k a)) -> extends (bind c k).
Proof.
  intros Hc Hk st. unfold bind. destruct (Hc st) as [evs1 E1].
  destruct (c st) as [[a|e] st1]; cbn [snd] in *.
  - destruct (Hk a st1) as [evs2 E2]. exists (evs1 ++ evs2).
    rewrite E2, E1, app_assoc. reflexivity.
  - exists evs1. exact E1.
Qed.

Lemma extends_getitem {A} (xs : list A) i : extends (getitem xs i).
Proof. unfold getitem. destruct (xs !! i); [apply extends_ret | apply extends_raise]. Qed.

Lemma extends_subscript {K V} (table : K -> option V) k : extends (subscript table k).
Proof.
  unfold subscript. destruct (table k); [apply extends_ret | apply extends_raise].
Qed.

Lemma extends_call_attack i img lbl pos : extends (call_attack i img lbl pos).
Proof.
  intros st. unfold call_attack.
  destruct (attack img lbl pos (orc st)) as [r o']. eexists. reflexivity.
Qed.

Lemma extends_for_each {A B} (body : B -> A -> M proc B) xs acc :
  (forall acc x, extends (body acc x)) -> extends (for_each body xs acc).
Proof.
  intros Hb. revert acc. induction xs as [|x xs IH]; intros acc; cbn [for_each].
  - apply extends_ret.
  - apply extends_bind; [apply Hb | exact IH].
Qed.

Lemma extends_attack_step G images labels acc i :
  extends (attack_step G images labels acc i).
Proof.
  unfold attack_step.
  apply extends_bind; [apply extends_getitem | intros lbl].
  apply extends_bind; [apply extends_getitem | intros img].
  apply extends_bind; [apply extends_subscript | intros m].
  destruct (Qle_bool 120 (brightness img m)); [|apply extends_ret].
  apply extends_bind; [apply extends_getitem | intros img'].
  apply extends_bind; [apply extends_getitem | intros lbl'].
  apply extends_bind; [apply extends_subscript | intros pos].
  apply extends_bind; [apply extends_call_attack | intros r].
  apply extends_ret.
Qed.

Lemma extends_evaluate G images labels : extends (evaluate G images labels).
Proof.
  unfold evaluate, attack_loop.
  apply extends_bind; [|intros acc; apply extends_lift].
  apply extends_for_each. intros acc i. apply extends_attack_step.
Qed.

(** Lines 28-62 build the model and hand [filename] to [torch.load] before
    anything else; if the load fails, so does the run, there; when the run
    ends normally, the results file made from [filename] was opened and the
    last thing done is the dump of the report into it. *)
Lemma test_regime_a_from_load G testing_dataset dev filename st :
  let loaded := {| orc := orc st; log := log st ++ [EvModel; EvTorchLoad filename] |} in
  match torch_load filename with
  | Raise e => test_regime_a_from G testing_dataset dev filename st = (Raise e, loaded)
  | Ok sd =>
      exists r st' rest,
        test_regime_a_from G testing_dataset dev filename st = (r, st')
        /\ log st' = log loaded ++ rest
        /\ (forall e, load_state_dict sd = Raise e -> r = Raise e /\ rest = [])
        /\ (r = Ok tt ->
            open_wb (results_path filename) = Ok tt
            /\ exists pre rep, rest = pre ++ [EvDump (results_path filename) rep])
  end.
Proof.
  cbn zeta. destruct (torch_load filename) as [sd|e] eqn:Hload;
    unfold test_regime_a_from;
    unfold bind at 1, emit at 1; unfold bind at 1, emit at 1; cbn [orc log];
    unfold bind at 1, lift at 1; rewrite Hload, <- app_assoc; cbn [app];
    [|reflexivity].
  unfold bind at 1, lift at 1.
  destruct (load_state_dict sd) as [[]|e].
  2: { eexists _, _, []. split; [reflexivity|]. cbn [log].
       rewrite app_nil_r. split; [reflexivity|].
       split; [intros e' [= <-]; auto | discriminate]. }
  unfold bind at 1, emit at 1. cbn [orc log].
  unfold bind at 1, lift at 1.
  destruct (pickle_load testing_dataset) as [[images labels]|e].
  2: { eexists _, _, [_]. split; [reflexivity|]. cbn [log].
       split; [reflexivity|]. split; discriminate. }
  cbn [fst snd]. unfold bind at 1.
  match goal with |- context [evaluate G images labels ?s] =>
    destruct (extends_evaluate G images labels s) as [evs Hevs];
    destruct (evaluate G images labels s) as [[rep|e] st4] end.
  2: { cbn [snd log] in Hevs. eexists _, _, (_ :: evs). split; [reflexivity|].
       rewrite Hevs, <- !app_assoc. split; [reflexivity|]. split; discriminate. }
  cbn [snd log] in Hevs.
  unfold bind at 1, emit at 1. unfold bind at 1, emit at 1. cbn [orc log].
  unfold bind at 1, lift at 1.
  destruct (open_wb (results_path filename)) as [[]|e] eqn:Hopen.
  2: { eexists _, _, (_ :: evs ++ [_; _]). split; [reflexivity|]. cbn [log].
       rewrite Hevs, <- !app_assoc. split; [reflexivity|]. split; discriminate. }
  unfold emit. cbn [orc log].
  eexists _, _, (_ :: evs ++ [_; _; _]). split; [reflexivity|]. cbn [log].
  rewrite Hevs, <- !app_assoc. split; [reflexivity|]. split; [discriminate|].
  intros _. split; [reflexivity|]. eexists (_ :: evs ++ [_; _]), rep.
  cbn [app]. rewrite <- app_assoc. reflexivity.
Qed.

End Log_growth.

(** ** Resolving the checkpoint *)

Section Checkpoint.
Context `{Env}.

(** Without a file name, lines 25-27 list the directory and take the last
    name of the sorted listing, or stop with an [IndexError]. *)
Lemma resolve_checkpoint_listing filename listing st :
  py_not filename = true ->
  listdir "./checkpoints/" = Ok listing ->
  resolve_checkpoint filename st =
    (match last (sorted listing) with
     | Some f => Ok f
     | None => Raise IndexError
     end,
     {| orc := orc st; log := log st ++ [EvListdir "./checkpoints/"] |}).
Proof.
  intros Hnot Hls. unfold resolve_checkpoint. rewrite Hnot.
  unfold bind, emit, lift. rewrite Hls. unfold getitem_last.
  destruct (last (sorted listing)); reflexivity.
Qed.

Lemma str_length_app s t : String.length (s +:+ t) = (String.length s + String.length t)%nat.
Proof.
  induction s as [|c s IH]; [reflexivity|].
  change (Datatypes.S (String.length (s +:+ t))
          = Datatypes.S (String.length s + String.length t)).
  f_equal. exact IH.
Qed.

End Checkpoint.

(** C8: when no file name is given, the checkpoint is the last name of the
    sorted listing of [./checkpoints/], an entry of the listing that no entry
    exceeds; on an empty listing regime A stops with an [IndexError] when
    only the directory has been listed: no model is built, no test set read,
    no report written. *)
Theorem latest_checkpoint_or_IndexError `{Env} (G : test_globals)
    (testing_dataset : string) (dev : device) (filename : option string)
    (listing : list string) (st : proc) :
  py_not filename = true ->
  listdir "./checkpoints/" = Ok listing ->
  let st1 := {| orc := orc st; log := log st ++ [EvListdir "./checkpoints/"] |} in
  (forall f, last (sorted listing) = Some f ->
     resolve_checkpoint filename st = (Ok f, st1)
     /\ f ∈ listing
     /\ forall y, y ∈ listing -> String.leb y f = true)
  /\ (listing <> [] -> is_Some (last (sorted listing)))
  /\ (listing = [] ->
      resolve_checkpoint filename st = (Raise IndexError, st1)
      /\ test_regime_a G testing_dataset dev filename st = (Raise IndexError, st1)).
Proof.
  intros Hnot Hls st1.
  pose proof (resolve_checkpoint_listing filename listing st Hnot Hls) as R.
  fold st1 in R. split; [|split].
  - intros f Hf. rewrite Hf in R. split; [exact R|]. apply sorted_last. exact Hf.
  - apply sorted_last_is_Some.
  - intros ->. cbn in R. split; [exact R|].
    unfold test_regime_a. apply bind_raise. exact R.
Qed.


(** ** The command line *)

Section Command_line.
Context `{Env}.

Lemma getattr_test_regime_a G st :
  getattr (test_module G) "test_regime_a" st = (Ok (test_regime_a_fn G), st).
Proof. unfold getattr, test_module. rewrite lookup_insert_eq. reflexivity. Qed.

Lemma getattr_test_missing G name st :
  name <> "test_regime_a" -> name <> "main" ->
  getattr (test_module G) name st = (Raise AttributeError, st).
Proof.
  intros H1 H2. unfold getattr, test_module.
  rewrite lookup_insert_ne by congruence.
  rewrite lookup_insert_ne by congruence.
  rewrite lookup_empty. reflexivity.
Qed.

(** What [main] does, by the outcome of argparse and by regime. *)
Lemma main_cases G argv st :
  let st1 := {| orc := orc st; log := log st ++ [EvParseArgs] |} in
  main (test_module G) argv st =
    match parse_args argv with
    | Raise e => (Raise e, st1)
    | Ok a =>
        let st2 := {| orc := orc st;
                      log := (log st ++ [EvParseArgs]) ++ [EvDispatch (args_regime a)] |} in
        match args_regime a with
        | TRAIN =>
            (fst (training a (orc st)),
             {| orc := snd (training a (orc st)); log := log st2 ++ [EvTrain] |})
        | TEST_A => (Raise TypeError, st2)
        | TEST_B | TEST_C => (Raise AttributeError, st2)
        end
    end.
Proof.
  cbn zeta. unfold main. unfold bind at 1, emit at 1. unfold bind at 1, lift at 1.
  destruct (parse_args argv) as [a|e]; [|reflexivity].
  unfold bind at 1, emit at 1. cbn [orc log].
  destruct (args_regime a).
  - unfold train_model, bind, emit. cbn [orc log].
    destruct (training a (orc st)) as [r o']. reflexivity.
  - rewrite (bind_ok _ _ _ _ _ (getattr_test_regime_a G _)). reflexivity.
  - apply bind_raise. apply getattr_test_missing; discriminate.
  - apply bind_raise. apply getattr_test_missing; discriminate.
Qed.

End Command_line.

(** C5: [main] calls [test.test_regime_a] with four positional arguments,
    the third being the proportion, and [test_regime_a] has the three
    parameters [testing_dataset], [device], [filename]: for every command
    line of regime [TEST_A] the call fails to bind, with a [TypeError], and
    regime A does not start. *)
Theorem TEST_A_call_does_not_bind `{Env} (G : test_globals) (argv : list string)
    (a : args) (st : proc) :
  parse_args argv = Ok a ->
  args_regime a = TEST_A ->
  test_a_actuals a = [PStr (test_dataset_location a); PDevice DEVICE;
                      PFloat (proportion a); opt_str (model_to_test a)]
  /\ fn_params (test_regime_a_fn G) = ["testing_dataset"; "device"; "filename"]
  /\ ("proportion" ∉ fn_params (test_regime_a_fn G))
  /\ (forall st', py_call (test_regime_a_fn G) (test_a_actuals a) st'
                  = (Raise TypeError, st'))
  /\ main (test_module G) argv st =
       (Raise TypeError,
        {| orc := orc st; log := log st ++ [EvParseArgs; EvDispatch TEST_A] |}).
Proof.
  intros Hparse Hregime.
  split; [reflexivity|]. split; [reflexivity|].
  split.
  { cbn. intros Hin. repeat (apply elem_of_cons in Hin as [Hin|Hin]; [discriminate|]).
    inversion Hin. }
  split; [reflexivity|].
  pose proof (main_cases G argv st) as C. cbn zeta in C.
  rewrite Hparse, Hregime in C. rewrite C, <- app_assoc. reflexivity.
Qed.

(** C9: every run of [andrewnet.py] imports [test] and calls [load_mask()]
    before it parses the command line or dispatches on the regime; if
    [load_mask()] fails, the run ends there with that failure, whatever the
    command line, a [TRAIN] one included; if it succeeds, parsing and
    dispatch follow. *)
Theorem load_mask_runs_before_dispatch `{Env} (argv : list string) (st : proc) :
  exists r st' rest,
    andrewnet_py argv st = (r, st')
    /\ log st' = log st ++ [EvImport "test"; EvLoadMask] ++ rest
    /\ (forall e, load_mask = Raise e -> r = Raise e /\ rest = [] /\ orc st' = orc st)
    /\ (forall masks a, load_mask = Ok masks -> parse_args argv = Ok a ->
          exists rest', rest = EvParseArgs :: EvDispatch (args_regime a) :: rest'
                        /\ (args_regime a = TRAIN -> rest' = [EvTrain])).
Proof.
  unfold andrewnet_py, test_py.
  unfold bind at 1. unfold bind at 1, emit at 1. unfold bind at 1, emit at 1.
  cbn [orc log]. unfold bind at 1, lift at 1.
  destruct load_mask as [masks|e0].
  - unfold ret at 1.
    match goal with |- context [main (test_module ?G) argv ?s] =>
      pose proof (main_cases G argv s) as C; cbn zeta in C; cbn [orc log] in C;
      destruct (main (test_module G) argv s) as [r st'] end.
    exists r, st'.
    destruct (parse_args argv) as [a|e].
    + exists (EvParseArgs :: EvDispatch (args_regime a)
                :: (match args_regime a with TRAIN => [EvTrain] | _ => [] end)).
      split; [reflexivity|]. split.
      * destruct (args_regime a); injection C as _ ->; cbn [log];
          rewrite <- ?app_assoc; reflexivity.
      * split; [discriminate|]. intros masks' a' _ Ha. injection Ha as <-.
        eexists. split; [reflexivity|]. intros ->. reflexivity.
    + exists [EvParseArgs]. split; [reflexivity|]. split.
      * injection C as _ ->. cbn [log]. rewrite <- ?app_assoc. reflexivity.
      * split; discriminate.
  - eexists _, _, []. split; [reflexivity|]. cbn [log orc].
    rewrite <- app_assoc. split; [reflexivity|]. split.
    + intros e He. injection He as <-. auto.
    + discriminate.
Qed.

(** ** The theorems at work on the replayed runs *)

(** Lines 42-54 on four images of grey levels 100, 130, 119 and 120: images
    1 and 3 are attacked, one attack of two
    succeeds, twelve queries are spent on four images. *)
Lemma evaluate_sample_numbers :
  exists r st',
    @evaluate (replay_env sample_scenario) (sample_globals sample_scenario)
      [100; 130; 119; 120] [0; 1; 2; 3] (sample_proc sample_scenario) = (Ok r, st')
    /\ @log (replay_env sample_scenario) st' = [EvAttack 1 true 5; EvAttack 3 false 7]
    /\ (robustness r == 3 # 4)%Q /\ (avg_queries r == 3)%Q.
Proof. eexists _, _. split; [reflexivity|]. split; [reflexivity|]. split; reflexivity. Qed.


(** Lines 53-54 on one success and one query over 160 images: [0.00625]
    rounds to [0.0063] and the robustness is [0.9937]. *)
Lemma metrics_one_of_160 :
  metrics 1 1 160
  = Ok {| robustness := double (9937 # 10000); avg_queries := double (63 # 10000) |}.
Proof. vm_compute. reflexivity. Qed.

(** C8 on the empty directory. *)
Lemma latest_checkpoint_or_IndexError_empty :
  let st := sample_proc empty_scenario in
  let st1 := @Build_proc (replay_env empty_scenario) [(true, 5); (false, 7)]
               ([] ++ [EvListdir "./checkpoints/"]) in
  (forall f, last (sorted []) = Some f ->
     @resolve_checkpoint (replay_env empty_scenario) None st = (Ok f, st1)
     /\ f ∈ @nil string
     /\ forall y, y ∈ @nil string -> String.leb y f = true)
  /\ (@nil string <> [] -> is_Some (last (sorted [])))
  /\ (@nil string = [] ->
      @resolve_checkpoint (replay_env empty_scenario) None st = (Raise IndexError, st1)
      /\ @test_regime_a (replay_env empty_scenario) (sample_globals empty_scenario)
           "./dataset/GTSRB/test.pkl" tt None st = (Raise IndexError, st1)).
Proof.
  apply (@latest_checkpoint_or_IndexError (replay_env empty_scenario)
           (sample_globals empty_scenario) "./dataset/GTSRB/test.pkl" tt None []
           (sample_proc empty_scenario)); reflexivity.
Defined.

(** The latest of the three sample checkpoints. *)
Lemma sorted_sample_listing :
  last (sorted sample_listing) = Some "model_2023-05-06_07-08-09_25.pth".
Proof. reflexivity. Qed.


(** Where a file of that name is found in the working directory, the run
    ends normally and the report goes to
    [results_2023-05-06_07-08-09_25.pth.json]. *)
Lemma test_regime_a_sample_log :
  let run := @test_regime_a (replay_env sample_scenario) (sample_globals sample_scenario)
               "./dataset/GTSRB/test.pkl" tt None (sample_proc sample_scenario) in
  let rep := {| robustness := double (1 - py_round (double (1 / 4)) 4);
                avg_queries := py_round (double (double 12 / double 4)) 4 |} in
  fst run = Ok tt
  /\ @log (replay_env sample_scenario) (snd run) =
       [EvListdir "./checkpoints/"; EvModel;
        EvTorchLoad "model_2023-05-06_07-08-09_25.pth";
        EvReadDataset "./dataset/GTSRB/test.pkl";
        EvAttack 1 true 5; EvAttack 3 false 7;
        EvPrint "Attack robustness: " (Some (robustness rep));
        EvPrint "Average queries: " (Some (avg_queries rep));
        EvDump "./testing_results/results_2023-05-06_07-08-09_25.pth.json" rep].
Proof. split; vm_compute; reflexivity. Qed.

(** C5 on the sample command line. *)
Lemma TEST_A_call_does_not_bind_sample :
  @test_a_actuals (replay_env sample_scenario) sample_args
    = [@PStr (replay_env sample_scenario) "./dataset/GTSRB/test.pkl";
       @PDevice (replay_env sample_scenario) tt;
       @PFloat (replay_env sample_scenario) 1;
       @PNone (replay_env sample_scenario)]
  /\ @fn_params (replay_env sample_scenario)
       (@test_regime_a_fn (replay_env sample_scenario) (sample_globals sample_scenario))
     = ["testing_dataset"; "device"; "filename"]
  /\ ("proportion" ∉ @fn_params (replay_env sample_scenario)
       (@test_regime_a_fn (replay_env sample_scenario) (sample_globals sample_scenario)))
  /\ (forall st',
        @py_call (replay_env sample_scenario)
          (@test_regime_a_fn (replay_env sample_scenario) (sample_globals sample_scenario))
          (@test_a_actuals (replay_env sample_scenario) sample_args) st'
        = (Raise TypeError, st'))
  /\ @main (replay_env sample_scenario)
       (@test_module (replay_env sample_scenario) (sample_globals sample_scenario))
       ["TEST_A"] (sample_proc sample_scenario)
     = (Raise TypeError,
        @Build_proc (replay_env sample_scenario) [(true, 5); (false, 7)]
          ([] ++ [EvParseArgs; EvDispatch TEST_A])).
Proof.
  apply (@TEST_A_call_does_not_bind (replay_env sample_scenario)
           (sample_globals sample_scenario) ["TEST_A"] sample_args
           (sample_proc sample_scenario)); reflexivity.
Defined.

(** C7 on two one-pixel images, three copies each. *)
Lemma gen_extra_data_cardinality_sample :
  exists x_arr y_arr g',
    @gen_extra_data replay_cv [[10]; [20]] [0; 1] 3 0 0 0 0 false swap_tape
      = (Ok (x_arr, y_arr), g')
    /\ length x_arr = (2 * Z.to_nat 3)%nat
    /\ length y_arr = (2 * Z.to_nat 3)%nat
    /\ (0 <= 3 ->
        Z.of_nat (length x_arr) = Z.of_nat 2 * 3 /\ Z.of_nat (length y_arr) = Z.of_nat 2 * 3)
    /\ (0 <> 1 ->
        forall i j, (i < 2)%nat -> (j < Z.to_nat 3)%nat ->
          exists x y img,
            [[10]; [20]] !! i = Some x /\ [0; 1] !! i = Some y
            /\ @transformed_copy replay_cv 0 0 0 false x img
            /\ x_arr !! (i * Z.to_nat 3 + j)%nat = Some img
            /\ y_arr !! (i * Z.to_nat 3 + j)%nat = Some y).
Proof.
  apply (@gen_extra_data_cardinality replay_cv replay_rng_laws [[10]; [20]] [0; 1] 3 0 0 0 0 false
           swap_tape).
  cbn. lia.
Defined.

(** C2, as stated, fails: on two images, when the generator draws the swap,
    shuffling returns them in the other order. *)
Lemma gen_extra_data_shuffle_is_not_a_no_op :
  fst (@gen_extra_data replay_cv [[10]; [20]] [0; 1] 1 0 0 0 1 false swap_tape)
    = Ok ([[20]; [10]], [1; 0])
  /\ fst (@gen_extra_data replay_cv [[10]; [20]] [0; 1] 1 0 0 0 0 false swap_tape)
    = Ok ([[10]; [20]], [0; 1])
  /\ fst (@gen_extra_data replay_cv [[10]; [20]] [0; 1] 1 0 0 0 1 false swap_tape)
     <> fst (@gen_extra_data replay_cv [[10]; [20]] [0; 1] 1 0 0 0 0 false swap_tape).
Proof.
  assert (E1 : fst (@gen_extra_data replay_cv [[10]; [20]] [0; 1] 1 0 0 0 1 false swap_tape)
               = Ok ([[20]; [10]], [1; 0])) by (vm_compute; reflexivity).
  assert (E0 : fst (@gen_extra_data replay_cv [[10]; [20]] [0; 1] 1 0 0 0 0 false swap_tape)
               = Ok ([[10]; [20]], [0; 1])) by (vm_compute; reflexivity).
  split; [exact E1|]. split; [exact E0|]. rewrite E1, E0. discriminate.
Qed.

(** Read in place, without the copy, the same assignment is no no-op
    either: the swap overwrites the second row with the first. *)
Lemma swap_in_place_is_not_a_no_op :
  scatter_in_place [[10]; [20]] [1; 0]%nat = [[10]; [10]].
Proof. reflexivity. Qed.

(** C2, amended, on the same two images. *)
Lemma gen_extra_data_shuffle_scatters_sample :
  exists x0 y0 g0 x1 y1,
    @gen_extra_data replay_cv [[10]; [20]] [0; 1] 1 0 0 0 0 false swap_tape
      = (Ok (x0, y0), g0)
    /\ let len_arr := fst (tape_shuffle (seq 0 (length y0)) g0) in
       @gen_extra_data replay_cv [[10]; [20]] [0; 1] 1 0 0 0 1 false swap_tape
         = (Ok (x1, y1), snd (tape_shuffle (seq 0 (length y0)) g0))
       /\ (forall k i, len_arr !! k = Some i ->
             x1 !! i = x0 !! k /\ y1 !! i = y0 !! k)
       /\ Permutation x1 x0 /\ Permutation y1 y0
       /\ (len_arr = seq 0 (length y0) -> x1 = x0 /\ y1 = y0).
Proof.
  apply (@gen_extra_data_shuffle_scatters replay_cv replay_rng_laws [[10]; [20]] [0; 1] 1 0 0 0 0 false
           swap_tape).
  - cbn. lia.
  - discriminate.
Defined.

(* ===================================================================== *)
(** * Part III: further properties of the three files                     *)
(* ===================================================================== *)

(** ** GtsrbCNN.forward *)

Lemma concat_features_channels x :
  channels x <> 3 -> concat_features x = Raise RuntimeError.
Proof.
  intros Hc. unfold concat_features, color_map, Conv2d.
  apply Z.eqb_neq in Hc. rewrite Hc. reflexivity.
Qed.

(** X1: [forward] accepts exactly the 3-channel inputs of at least 8 by 8
    pixels whose three flattened branches add up to 14336 features, and
    then returns 43 logits; every other input is refused with a
    [RuntimeError]. *)
Theorem forward_accepts_iff (x : tensor_shape) :
  let h := height x in
  let w := width x in
  let fits :=
    channels x = 3 /\ 8 <= h /\ 8 <= w
    /\ 32 * (h / 2) * (w / 2) + 64 * (h / 4) * (w / 4) + 128 * (h / 8) * (w / 8)
       = 14336 in
  (forall n, forward x = Ok n <-> n = 43 /\ fits)
  /\ (forall e, forward x = Raise e <-> e = RuntimeError /\ ~ fits).
Proof.
  destruct x as [c h w]. cbn [channels height width]. cbn zeta.
  assert (Hcases :
    (c = 3 /\ 8 <= h /\ 8 <= w
     /\ 32 * (h / 2) * (w / 2) + 64 * (h / 4) * (w / 4) + 128 * (h / 8) * (w / 8) = 14336
     /\ forward {| channels := c; height := h; width := w |} = Ok 43)
    \/ (~ (c = 3 /\ 8 <= h /\ 8 <= w
           /\ 32 * (h / 2) * (w / 2) + 64 * (h / 4) * (w / 4) + 128 * (h / 8) * (w / 8)
              = 14336)
        /\ forward {| channels := c; height := h; width := w |} = Raise RuntimeError)).
  { destruct (Z.eq_dec c 3) as [->|Hc].
    2: { right. split; [tauto|]. unfold forward.
         rewrite concat_features_channels by exact Hc. reflexivity. }
    destruct (Z_lt_le_dec h 8) as [Hh|Hh].
    { right. split; [lia|]. unfold forward.
      rewrite concat_features_small by lia. reflexivity. }
    destruct (Z_lt_le_dec w 8) as [Hw|Hw].
    { right. split; [lia|]. unfold forward.
      rewrite concat_features_small by lia. reflexivity. }
    unfold forward. rewrite concat_features_eq by lia.
    unfold fc1, fc2, fc3, Linear. cbn [rbind].
    destruct (32 * (h / 2) * (w / 2) + 64 * (h / 4) * (w / 4) + 128 * (h / 8) * (w / 8)
              =? 14336) eqn:E.
    - apply Z.eqb_eq in E. left. repeat (split; [assumption || reflexivity|]).
      reflexivity.
    - apply Z.eqb_neq in E. right. split; [tauto|]. reflexivity. }
  split.
  - intros n. destruct Hcases as [(H1 & H2 & H3 & H4 & E)|[Hn E]]; rewrite E.
    + split; [intros [= <-]; tauto | intros [-> _]; reflexivity].
    + split; [discriminate | intros [_ Hf]; contradiction].
  - intros e. destruct Hcases as [(H1 & H2 & H3 & H4 & E)|[Hn E]]; rewrite E.
    + split; [discriminate | intros [_ Hf]; exfalso; apply Hf; tauto].
    + split; [intros [= <-]; tauto | intros [-> _]; reflexivity].
Qed.

(** ** gen_extra_data at its edges *)

Section Gen_extra_data_edges.
Context `{RngLaws}.
Variables (x_train : list ndarray) (y_train : list scalar) (n_each : Z).
Variables (ang_range shear_range trans_range : Q) (preprocess : bool).

Lemma for_each_unchanged {S A B} (body : B -> A -> M S B) xs acc (s : S) :
  (forall x, body acc x s = (Ok acc, s)) -> for_each body xs acc s = (Ok acc, s).
Proof.
  intros Hb. induction xs as [|x xs IH]; [reflexivity|].
  cbn [for_each]. rewrite (bind_ok _ _ _ _ _ (Hb x)). exact IH.
Qed.

Lemma gen_copies_no_round acc i g :
  n_each <= 0 ->
  gen_copies x_train y_train n_each ang_range shear_range trans_range preprocess acc i g
    = (Ok acc, g).
Proof.
  intros Hn. unfold gen_copies, range.
  replace (Z.to_nat n_each) with 0%nat by lia. reflexivity.
Qed.

Lemma gen_copies_missing_label acc g :
  0 < n_each -> (length y_train < length x_train)%nat ->
  exists g',
    gen_copies x_train y_train n_each ang_range shear_range trans_range preprocess
      acc (length y_train) g = (Raise IndexError, g').
Proof.
  intros Hn Hlen. unfold gen_copies, range.
  destruct (Z.to_nat n_each) as [|k] eqn:Ek; [lia|].
  cbn [seq for_each].
  destruct (lookup_lt_is_Some_2 x_train (length y_train) Hlen) as [x Hx].
  destruct (transform_image_ok ang_range shear_range trans_range preprocess x g)
    as (img & g1 & Et).
  exists g1. apply bind_raise.
  rewrite (bind_ok _ _ _ _ _ (getitem_ok x_train _ x g Hx)).
  rewrite (bind_ok _ _ _ _ _ Et).
  apply bind_raise. unfold getitem.
  rewrite (proj2 (lookup_ge_None y_train (length y_train))) by lia. reflexivity.
Qed.

End Gen_extra_data_edges.

(** X2: asked for no copy ([n_each <= 0]), [gen_extra_data] returns two empty
    arrays, whatever the images, the labels and [randomize_var]; no label is
    looked up, so a missing one goes unnoticed. *)
Theorem gen_extra_data_no_copies `{RngLaws} (x_train : list ndarray)
    (y_train : list scalar) (n_each : Z) (ang_range shear_range trans_range : Q)
    (randomize_var : Z) (preprocess : bool) (g : rng) :
  n_each <= 0 ->
  fst (gen_extra_data x_train y_train n_each ang_range shear_range trans_range
         randomize_var preprocess g) = Ok ([], []).
Proof.
  intros Hn. unfold gen_extra_data.
  rewrite (bind_ok _ _ _ ([], []) g).
  2: { apply for_each_unchanged. intros i. apply gen_copies_no_round. exact Hn. }
  cbn [fst snd fmap list_fmap length seq].
  destruct (randomize_var =? 1); [|reflexivity].
  unfold bind at 1, np_shuffle.
  pose proof (shuffle_perm [] g) as Hp.
  destruct (shuffle [] g) as [len_arr g1]. cbn [fst] in Hp.
  apply Permutation_nil_r in Hp. subst len_arr. reflexivity.
Qed.

(** X3: asked for at least one copy of images that outnumber the labels,
    [gen_extra_data] raises [IndexError]: it returns nothing, not even the
    copies of the images that do have a label. *)
Theorem gen_extra_data_missing_label `{RngLaws} (x_train : list ndarray)
    (y_train : list scalar) (n_each : Z) (ang_range shear_range trans_range : Q)
    (randomize_var : Z) (preprocess : bool) (g : rng) :
  0 < n_each ->
  (length y_train < length x_train)%nat ->
  fst (gen_extra_data x_train y_train n_each ang_range shear_range trans_range
         randomize_var preprocess g) = Raise IndexError.
Proof.
  intros Hn Hlen. unfold gen_extra_data.
  replace (length x_train)
    with (length y_train + Datatypes.S (length x_train - length y_train - 1))%nat by lia.
  rewrite seq_app.
  destruct (gen_copies_loop x_train y_train n_each ang_range shear_range trans_range
              preprocess (length y_train) g) as (acc & g1 & E & _); [lia|lia|].
  destruct (gen_copies_missing_label x_train y_train n_each ang_range shear_range
              trans_range preprocess acc g1 Hn Hlen) as [g2 E2].
  erewrite bind_raise; [reflexivity|].
  rewrite for_each_app. rewrite (bind_ok _ _ _ _ _ E).
  cbn [seq for_each Nat.add]. apply bind_raise. exact E2.
Qed.

(** ** transform_image as a whole *)

Section Transform_image_whole.
Context `{RngLaws}.




End Transform_image_whole.


(** ** The command line, regime by regime *)

(** X5: [test.py] defines neither [test_regime_b] nor [test_regime_c]: for
    every command line of regime [TEST_B] or [TEST_C], [main] fails with an
    [AttributeError] on looking the function up, before any argument is
    passed. *)
Theorem TEST_B_and_TEST_C_are_not_defined `{Env} (G : test_globals)
    (argv : list string) (a : args) (st : proc) :
  parse_args argv = Ok a ->
  args_regime a = TEST_B \/ args_regime a = TEST_C ->
  test_module G !! "test_regime_b" = None
  /\ test_module G !! "test_regime_c" = None
  /\ main (test_module G) argv st =
       (Raise AttributeError,
        {| orc := orc st;
           log := log st ++ [EvParseArgs; EvDispatch (args_regime a)] |}).
Proof.
  intros Hparse Hregime.
  split; [reflexivity|]. split; [reflexivity|].
  pose proof (main_cases G argv st) as C. cbn zeta in C. rewrite Hparse in C.
  rewrite C, <- app_assoc.
  destruct Hregime as [-> | ->]; reflexivity.
Qed.

(** The script, by the outcome of [load_mask()]. *)
Lemma andrewnet_py_cases `{Env} (argv : list string) (st : proc) :
  andrewnet_py argv st =
    let st1 := {| orc := orc st; log := (log st ++ [EvImport "test"]) ++ [EvLoadMask] |} in
    match load_mask with
    | Raise e => (Raise e, st1)
    | Ok masks =>
        main (test_module {| POSITION_LIST := fst masks; MASK_LIST := snd masks |})
          argv st1
    end.
Proof.
  unfold andrewnet_py, test_py, bind, emit, lift, ret. cbn [orc log].
  destruct load_mask; reflexivity.
Qed.

(** X6: no command line makes [andrewnet.py] run an evaluation: whatever the
    arguments, a run logs nothing but the import of [test], [load_mask()],
    the parsing, the dispatch and the training, and it can only end normally
    on a [TRAIN] command line whose training ends normally. *)
Theorem command_line_never_evaluates `{Env} (argv : list string) (st : proc) :
  exists evs,
    log (snd (andrewnet_py argv st)) = log st ++ evs
    /\ Forall is_startup_or_training evs
    /\ (fst (andrewnet_py argv st) = Ok tt ->
        exists a, parse_args argv = Ok a /\ args_regime a = TRAIN
                  /\ fst (training a (orc st)) = Ok tt).
Proof.
  rewrite andrewnet_py_cases. cbn zeta.
  destruct load_mask as [masks|e0].
  - rewrite main_cases. cbn zeta. cbn [orc log].
    destruct (parse_args argv) as [a|e] eqn:Hparse.
    + exists ([EvImport "test"; EvLoadMask; EvParseArgs; EvDispatch (args_regime a)]
                ++ match args_regime a with TRAIN => [EvTrain] | _ => [] end).
      destruct (args_regime a) eqn:Er; cbn [fst snd log]; rewrite <- ?app_assoc;
        (split; [reflexivity|]);
        (split; [cbn [app]; repeat (constructor; try exact I)|]);
        [intros Hok; exists a; repeat split; [exact Er | exact Hok]
        | discriminate ..].
    + exists [EvImport "test"; EvLoadMask; EvParseArgs].
      cbn [fst snd log]. rewrite <- ?app_assoc.
      split; [reflexivity|]. split; [repeat (constructor; try exact I)|]. discriminate.
  - exists [EvImport "test"; EvLoadMask].
    cbn [fst snd log]. rewrite <- ?app_assoc.
    split; [reflexivity|]. split; [repeat (constructor; try exact I)|]. discriminate.
Qed.

(** ** The loop of test_regime_a at its edges *)

Section Attack_loop_edges.
Context `{Env} (G : test_globals) (images : list image) (labels : list label).



End Attack_loop_edges.


(** ** The two numbers of the report *)

Section Report_bounds.
Context `{Env}.
Variables (G : test_globals) (images : list image) (labels : list label).
Hypothesis attack_counts :
  forall img lbl pos o, 0 <= snd (fst (attack img lbl pos o)).

Lemma attack_step_queries acc i st acc' st' :
  attack_step G images labels acc i st = (Ok acc', st') ->
  0 <= snd acc -> 0 <= snd acc'.
Proof.
  unfold attack_step, getitem, subscript.
  destruct (labels !! i) as [lbl|]; [|discriminate].
  destruct (images !! i) as [img|]; [|discriminate].
  unfold bind at 1, ret at 1. unfold bind at 1, ret at 1.
  destruct (MASK_LIST G (judge_mask_type "GTSRB" lbl)) as [m|]; [|discriminate].
  unfold bind at 1, ret at 1.
  destruct (Qle_bool 120 (brightness img m)).
  - unfold bind at 1, ret at 1. unfold bind at 1, ret at 1.
    destruct (POSITION_LIST G (judge_mask_type "GTSRB" lbl)) as [pos|]; [|discriminate].
    unfold bind at 1, ret at 1. unfold bind, call_attack, ret.
    pose proof (attack_counts img lbl pos (orc st)) as Hq.
    destruct (attack img lbl pos (orc st)) as [r o'].
    intros E. injection E as <- _. cbn [fst snd] in *. lia.
  - unfold ret. intros E. injection E as <- _. auto.
Qed.

Lemma attack_rounds_queries idxs acc st acc' st' :
  for_each (attack_step G images labels) idxs acc st = (Ok acc', st') ->
  0 <= snd acc -> 0 <= snd acc'.
Proof.
  revert acc st. induction idxs as [|i idxs IH]; intros acc st.
  - cbn. unfold ret. intros E. injection E as <- _. auto.
  - cbn [for_each]. unfold bind.
    destruct (attack_step G images labels acc i st) as [[acc1|e] st1] eqn:S;
      [|discriminate].
    intros E Hacc. apply (IH _ _ E). exact (attack_step_queries _ _ _ _ _ S Hacc).
Qed.

End Report_bounds.

(** X8: the numbers of a report.  [robustness] lies between 0 and 1:
    [success] is a boolean, [attack] is called at most once per image, and
    line 54 divides the successes by the number of all images before it
    rounds.  [avg_queries] is not negative as long as [attack] never returns
    a negative query count. *)
Theorem report_within_bounds `{Env} (G : test_globals) (images : list image)
    (labels : list label) (st st' : proc) (r : report) :
  evaluate G images labels st = (Ok r, st') ->
  (0 <= robustness r /\ robustness r <= 1)%Q
  /\ ((forall img lbl pos o, 0 <= snd (fst (attack img lbl pos o))) ->
      (0 <= avg_queries r)%Q).
Proof.
  intros E. unfold evaluate, attack_loop, bind in E.
  pose proof (attack_rounds_outcome G images labels (seq 0 (length images)) (0, 0) st)
    as O.
  pose proof (fun Hq => attack_rounds_queries G images labels Hq
                          (seq 0 (length images)) (0, 0) st) as Q.
  destruct (for_each _ (seq 0 (length images)) (0, 0) st) as [[acc|e] st1];
    [|discriminate].
  destruct O as (evs & -> & L & A & N). cbn [fst snd] in E, Q.
  rewrite !Z.add_0_l in E. unfold lift, metrics in E.
  destruct (float_of_int (attack_queries evs)) as [total|e] eqn:Ef; [|discriminate].
  destruct (truediv total (length images)) as [q|e] eqn:Eq; [|discriminate].
  destruct (int_truediv (attack_successes evs) (length images)) as [r0|e] eqn:Er;
    [|discriminate].
  injection E as <- <-. cbn [avg_queries robustness].
  split.
  - pose proof (attack_successes_bounds evs) as Hs.
    assert (Hatt : Z.of_nat (length (attacked evs)) <= Z.of_nat (length images)).
    { rewrite A.
      pose proof (filter_length_le (bright G images labels) (seq 0 (length images))) as F.
      rewrite length_seq in F. lia. }
    destruct (int_truediv_unit (attack_successes evs) (length images) r0
                ltac:(lia) Er) as [R0 R1].
    destruct (py_round_unit r0 R0 R1) as [P0 P1].
    exact (one_minus_unit _ P0 P1).
  - intros Hq.
    assert (Hqueries : 0 <= attack_queries evs).
    { specialize (Q Hq _ _ eq_refl ltac:(cbn; lia)). cbn in Q. lia. }
    assert (Htotal : (0 <= total)%Q).
    { unfold float_of_int in Ef. destruct (overflows _); [discriminate|].
      injection Ef as <-. apply double_nonneg.
      change 0%Q with (inject_Z 0). rewrite <- Zle_Qle. exact Hqueries. }
    unfold truediv in Eq. destruct (length images) as [|n']; [discriminate|].
    injection Eq as <-. apply py_round_nonneg, double_nonneg.
    apply Qmult_le_0_compat; [exact Htotal|]. apply Qinv_le_0_compat.
    apply double_nonneg. change 0%Q with (inject_Z 0). rewrite <- Zle_Qle. lia.
Qed.

(** ** The effects of regime A, in order *)

Section Regime_A_trace.
Context `{Env}.

Lemma attacked_length_le evs : (length (attacked evs) <= length evs)%nat.
Proof.
  unfold attacked. induction evs as [|e evs IH]; [reflexivity|].
  destruct e; cbn in *; lia.
Qed.

Lemma attacked_all evs : length (attacked evs) = length evs -> Forall is_attack evs.
Proof.
  induction evs as [|e evs IH]; intros Hlen; [constructor|].
  pose proof (attacked_length_le evs) as Hle.
  unfold attacked in *.
  destruct e; cbn in Hlen; try lia.
  constructor; [exact I|]. apply IH. lia.
Qed.

Lemma is_attack_no_dump evs : Forall is_attack evs -> Forall (fun ev => ~ is_dump ev) evs.
Proof. intros F. apply (Forall_impl _ _ _ F). intros []; cbn; tauto. Qed.

Lemma is_attack_no_print evs : Forall is_attack evs -> prints evs = [].
Proof.
  induction 1 as [|e evs He _ IH]; [reflexivity|].
  destruct e; try contradiction. exact IH.
Qed.

(** Lines 42-54 add calls of [attack] to the log, and nothing else. *)
Lemma evaluate_log G images labels st :
  exists evs,
    log (snd (evaluate G images labels st)) = log st ++ evs /\ Forall is_attack evs.
Proof.
  unfold evaluate, attack_loop, bind.
  pose proof (attack_rounds_outcome G images labels (seq 0 (length images)) (0, 0) st)
    as O.
  destruct (for_each _ (seq 0 (length images)) (0, 0) st) as [[acc|e] st1].
  - destruct O as (evs & _ & L & _ & N). exists evs. unfold lift. cbn [snd].
    split; [exact L | exact (attacked_all _ N)].
  - destruct O as (evs & k & _ & L & _ & N). exists evs. cbn [snd].
    split; [exact L | exact (attacked_all _ N)].
Qed.

(** Lines 28-62, once the checkpoint is named: the effects in order. *)
Lemma test_regime_a_from_trace G testing_dataset dev filename st :
  exists r st' evs,
    test_regime_a_from G testing_dataset dev filename st = (r, st')
    /\ log st' = log st ++ EvModel :: EvTorchLoad filename :: evs
    /\ Forall (fun ev => ~ is_listdir ev) evs
    /\ match r with
       | Ok _ =>
           exists atk rep,
             evs = [EvReadDataset testing_dataset] ++ atk
                   ++ [EvPrint "Attack robustness: " (Some (robustness rep));
                       EvPrint "Average queries: " (Some (avg_queries rep));
                       EvDump (results_path filename) rep]
             /\ Forall is_attack atk
       | Raise e =>
           Forall (fun ev => ~ is_dump ev) evs
           /\ (prints evs = [] \/ open_wb (results_path filename) = Raise e)
       end.
Proof.
  assert (Hnl : forall atk, Forall is_attack atk ->
                  Forall (fun ev => ~ is_listdir ev) atk).
  { intros atk F. apply (Forall_impl _ _ _ F). intros []; cbn; tauto. }
  unfold test_regime_a_from.
  unfold bind at 1, emit at 1. unfold bind at 1, emit at 1. cbn [orc log].
  unfold bind at 1, lift at 1.
  destruct (torch_load filename) as [sd|e].
  2: { eexists _, _, []. split; [reflexivity|]. cbn [log].
       rewrite <- app_assoc. split; [reflexivity|].
       split; [constructor|]. split; [constructor | left; reflexivity]. }
  unfold bind at 1, lift at 1.
  destruct (load_state_dict sd) as [[]|e].
  2: { eexists _, _, []. split; [reflexivity|]. cbn [log].
       rewrite <- app_assoc. split; [reflexivity|].
       split; [constructor|]. split; [constructor | left; reflexivity]. }
  unfold bind at 1, emit at 1. cbn [orc log].
  unfold bind at 1, lift at 1.
  destruct (pickle_load testing_dataset) as [[images labels]|e].
  2: { eexists _, _, [_]. split; [reflexivity|]. cbn [log].
       rewrite <- !app_assoc. split; [reflexivity|].
       split; [repeat constructor; cbn; tauto|].
       split; [repeat constructor; cbn; tauto | left; reflexivity]. }
  cbn [fst snd]. unfold bind at 1.
  match goal with |- context [evaluate G images labels ?s] =>
    destruct (evaluate_log G images labels s) as (atk & Hatk & Fatk);
    destruct (evaluate G images labels s) as [[rep|e] st4] end.
  2: { cbn [snd log] in Hatk. eexists _, _, ([_] ++ atk). split; [reflexivity|].
       rewrite Hatk, <- !app_assoc. split; [reflexivity|].
       split; [apply Forall_app; split; [repeat constructor; cbn; tauto | exact (Hnl _ Fatk)]|].
       split.
       - apply Forall_app. split; [repeat constructor; cbn; tauto|].
         apply is_attack_no_dump, Fatk.
       - left. unfold prints. rewrite omap_app. cbn [omap list_omap app].
         apply is_attack_no_print, Fatk. }
  cbn [snd log] in Hatk.
  unfold bind at 1, emit at 1. unfold bind at 1, emit at 1. cbn [orc log].
  unfold bind at 1, lift at 1.
  destruct (open_wb (results_path filename)) as [[]|e].
  2: { eexists _, _, ([_] ++ atk ++ [_; _]). split; [reflexivity|]. cbn [log].
       rewrite Hatk, <- !app_assoc. split; [reflexivity|].
       split.
       { apply Forall_app. split; [repeat constructor; cbn; tauto|].
         apply Forall_app. split; [exact (Hnl _ Fatk)|].
         repeat constructor; cbn; tauto. }
       split; [|right; reflexivity].
       apply Forall_app. split; [repeat constructor; cbn; tauto|].
       apply Forall_app. split; [apply is_attack_no_dump, Fatk|].
       repeat constructor; cbn; tauto. }
  unfold emit. cbn [orc log].
  eexists _, _, ([_] ++ atk ++ [_; _; _]). split; [reflexivity|]. cbn [log].
  rewrite Hatk, <- !app_assoc. split; [reflexivity|].
  split.
  { apply Forall_app. split; [repeat constructor; cbn; tauto|].
    apply Forall_app. split; [exact (Hnl _ Fatk)|].
    repeat constructor; cbn; tauto. }
  exists atk, rep. split; [reflexivity | exact Fatk].
Qed.

End Regime_A_trace.


Lemma str_app_assoc s t u : (s +:+ t) +:+ u = s +:+ t +:+ u.
Proof.
  induction s as [|c s IH]; [reflexivity|].
  change (String c ((s +:+ t) +:+ u) = String c (s +:+ t +:+ u)).
  f_equal. exact IH.
Qed.

(** X10: a checkpoint named on the call is used as given: the directory is
    not listed and [torch.load] is called on the name unchanged.  If that
    load fails, regime A fails with its error once the model is built; if it
    succeeds and the run ends normally, the results file opened and written
    is [./testing_results/results_<name minus its first 6 characters>.json].
    For the name under which [train_model] saves, path included, that is a
    file of the directory [./testing_results/results_kpoints/].  The empty
    name counts as no name. *)
Theorem explicit_checkpoint_is_loaded_as_given `{Env} (G : test_globals)
    (testing_dataset : string) (dev : device) (f : string) (st : proc) :
  f <> "" ->
  let loaded := {| orc := orc st; log := log st ++ [EvModel; EvTorchLoad f] |} in
  resolve_checkpoint (Some f) st = (Ok f, st)
  /\ (forall e, torch_load f = Raise e ->
        test_regime_a G testing_dataset dev (Some f) st = (Raise e, loaded))
  /\ (forall sd, torch_load f = Ok sd ->
        exists r st' evs,
          test_regime_a G testing_dataset dev (Some f) st = (r, st')
          /\ log st' = log loaded ++ evs
          /\ Forall (fun ev => ~ is_listdir ev) evs
          /\ (forall e, load_state_dict sd = Raise e -> r = Raise e /\ evs = [])
          /\ (r = Ok tt ->
              open_wb (results_path f) = Ok tt
              /\ exists pre rep, evs = pre ++ [EvDump (results_path f) rep]))
  /\ (forall now, f = checkpoint_filename now ->
        results_path f
          = "./testing_results/results_kpoints/model_" +:+ now +:+ "_25.pth.json")
  /\ test_regime_a G testing_dataset dev (Some "") st
       = test_regime_a G testing_dataset dev None st.
Proof.
  intros Hf loaded.
  assert (R : resolve_checkpoint (Some f) st = (Ok f, st)).
  { unfold resolve_checkpoint. destruct f as [|c f]; [contradiction|]. reflexivity. }
  assert (E : test_regime_a G testing_dataset dev (Some f) st
              = test_regime_a_from G testing_dataset dev f st).
  { unfold test_regime_a. rewrite (bind_ok _ _ _ _ _ R). reflexivity. }
  pose proof (test_regime_a_from_load G testing_dataset dev f st) as L.
  cbn zeta in L. fold loaded in L.
  split; [exact R|]. rewrite E. split; [|split; [|split; [|reflexivity]]].
  - intros e He. rewrite He in L. exact L.
  - intros sd Hsd. rewrite Hsd in L.
    destruct L as (r & st' & rest & Erun & Hlog & Hsd' & Hok).
    destruct (test_regime_a_from_trace G testing_dataset dev f st)
      as (r' & st'' & evs & Erun' & Hlog' & Fl & _).
    rewrite Erun in Erun'. injection Erun' as <- <-.
    assert (rest = evs).
    { rewrite Hlog in Hlog'. unfold loaded in Hlog'. cbn [log] in Hlog'.
      rewrite <- app_assoc in Hlog'. apply app_inv_head in Hlog'.
      cbn [app] in Hlog'. injection Hlog' as ->. reflexivity. }
    subst rest. exists r, st', evs. auto.
  - intros now ->. unfold results_path.
    change (str_from 6 (checkpoint_filename now))
      with ("kpoints/model_" +:+ now +:+ "_25.pth").
    change ("kpoints/model_" +:+ now +:+ "_25.pth")
      with ("kpoints/model_" +:+ (now +:+ "_25.pth")).
    rewrite !str_app_assoc. reflexivity.
Qed.

(** X11: on a test set without images the loop has no round, and line 53
    divides by [len(images)]: regime A has built the model, loaded the
    checkpoint and read the test set when it stops with a
    [ZeroDivisionError], before it prints or writes anything. *)
Theorem empty_test_set_divides_by_zero `{Env} (G : test_globals)
    (testing_dataset : string) (dev : device) (filename : string)
    (labels : list label) (sd : state_dict) (st : proc) :
  torch_load filename = Ok sd ->
  load_state_dict sd = Ok tt ->
  pickle_load testing_dataset = Ok ([], labels) ->
  test_regime_a_from G testing_dataset dev filename st
    = (Raise ZeroDivisionError,
       {| orc := orc st;
          log := log st ++ [EvModel; EvTorchLoad filename;
                            EvReadDataset testing_dataset] |}).
Proof.
  intros Hload Hsd Hdata. unfold test_regime_a_from.
  unfold bind, emit, lift. cbn [orc log]. rewrite Hload, Hsd, Hdata.
  cbn. rewrite <- !app_assoc. reflexivity.
Qed.

(** ** The checkpoint [train_model] writes and the one regime A picks *)

Section Checkpoint_names.

Lemma string_compare_refl s : String.compare s s = Eq.
Proof.
  induction s as [|c s IH]; [reflexivity|].
  cbn. rewrite ascii_compare_refl. exact IH.
Qed.

Lemma string_compare_app_l p a b :
  String.compare (p +:+ a) (p +:+ b) = String.compare a b.
Proof.
  induction p as [|c p IH]; [reflexivity|].
  change (String.compare (String c (p +:+ a)) (String c (p +:+ b)) = String.compare a b).
  cbn [String.compare]. rewrite ascii_compare_refl. exact IH.
Qed.

Lemma string_compare_app_r a b s :
  String.length a = String.length b ->
  String.compare (a +:+ s) (b +:+ s) = String.compare a b.
Proof.
  revert b. induction a as [|c a IH]; intros [|d b] Hlen; try discriminate.
  - apply string_compare_refl.
  - change (String.compare (String c (a +:+ s)) (String d (b +:+ s))
            = String.compare (String c a) (String d b)).
    cbn [String.compare]. rewrite IH by (cbn in Hlen; congruence). reflexivity.
Qed.

(** Two checkpoints of [train_model] are ordered as their timestamps are,
    when these have one width. *)
Lemma listed_checkpoints_leb t now :
  String.length t = String.length now ->
  String.leb (listed_as (checkpoint_filename t)) (listed_as (checkpoint_filename now))
    = String.leb t now.
Proof.
  intros Hlen. unfold String.leb.
  change (listed_as (checkpoint_filename t)) with ("model_" +:+ t +:+ "_25.pth").
  change (listed_as (checkpoint_filename now)) with ("model_" +:+ now +:+ "_25.pth").
  rewrite string_compare_app_l, string_compare_app_r by exact Hlen. reflexivity.
Qed.

End Checkpoint_names.

(** X12: [train_model] saves to [./checkpoints/model_<timestamp>_25.pth].
    In a directory that holds such checkpoints only, their timestamps of one
    width, regime A without a file name picks the one with the greatest
    timestamp, the latest; its report goes to
    [./testing_results/results_<timestamp>_25.pth.json]. *)
Theorem latest_checkpoint_is_latest_timestamp `{Env} (stamps listing : list string)
    (width : nat) (st : proc) :
  listdir "./checkpoints/" = Ok listing ->
  listing = (fun now => listed_as (checkpoint_filename now)) <$> stamps ->
  (forall now, now ∈ stamps -> String.length now = width) ->
  stamps <> [] ->
  exists now,
    now ∈ stamps
    /\ (forall t, t ∈ stamps -> String.leb t now = true)
    /\ checkpoint_filename now = "./checkpoints/model_" +:+ now +:+ "_25.pth"
    /\ resolve_checkpoint None st
       = (Ok ("model_" +:+ now +:+ "_25.pth"),
          {| orc := orc st; log := log st ++ [EvListdir "./checkpoints/"] |})
    /\ results_path ("model_" +:+ now +:+ "_25.pth")
       = "./testing_results/results_" +:+ now +:+ "_25.pth.json".
Proof.
  intros Hls Hlisting Hwidth Hne.
  destruct (sorted_last_is_Some listing) as [f Hf].
  { rewrite Hlisting. destruct stamps; [contradiction | discriminate]. }
  destruct (sorted_last listing f Hf) as [Hin Hmax].
  rewrite Hlisting in Hin. apply list_elem_of_fmap in Hin as (now & -> & Hnow).
  exists now. split; [exact Hnow|]. split; [|split; [reflexivity|split]].
  - intros t Ht. rewrite <- listed_checkpoints_leb.
    + apply Hmax. rewrite Hlisting. apply list_elem_of_fmap. eauto.
    + rewrite (Hwidth t Ht), (Hwidth now Hnow). reflexivity.
  - rewrite (resolve_checkpoint_listing None listing st eq_refl Hls), Hf. reflexivity.
  - unfold results_path.
    change (str_from 6 ("model_" +:+ now +:+ "_25.pth")) with (now +:+ "_25.pth").
    rewrite str_app_assoc. reflexivity.
Qed.

(** ** The training split *)

Section Train_split.

Lemma slice_to_take {A} (xs : list A) stop :
  exists k, slice_to xs stop = take k xs
            /\ (k <= length xs)%nat
            /\ Z.of_nat k = (if 0 <=? stop then Z.min stop (Z.of_nat (length xs))
                             else Z.max 0 (Z.of_nat (length xs) + stop)).
Proof.
  unfold slice_to. destruct (Z.leb_spec 0 stop) as [Hs|Hs].
  - exists (Nat.min (Z.to_nat stop) (length xs)). split; [|split; lia].
    destruct (Nat.le_ge_cases (Z.to_nat stop) (length xs)) as [Hle|Hge].
    + rewrite Nat.min_l by exact Hle. reflexivity.
    + rewrite Nat.min_r by exact Hge.
      rewrite !take_ge by lia. reflexivity.
  - exists (length xs - Z.to_nat (- stop))%nat. split; [reflexivity|]. split; lia.
Qed.

Lemma NoDup_take {A} (l : list A) k : NoDup l -> NoDup (take k l).
Proof.
  intros Hnd. rewrite <- (take_drop k l) in Hnd.
  apply NoDup_app in Hnd. tauto.
Qed.

End Train_split.


(** ** What the loop depends on *)

Section Log_blind.
Context `{Env}.

Lemma log_blind_ret {A} (a : A) : log_blind (ret a).
Proof.
  intros o l1 l2. exists (Ok a), o, []. unfold ret. rewrite !app_nil_r. auto.
Qed.

Lemma log_blind_raise {A} e : log_blind (raise e : M proc A).
Proof.
  intros o l1 l2. exists (Raise e), o, []. unfold raise. rewrite !app_nil_r. auto.
Qed.

Lemma log_blind_lift {A} (r : result A) : log_blind (lift r).
Proof.
  intros o l1 l2. exists r, o, []. unfold lift. rewrite !app_nil_r. auto.
Qed.

Lemma log_blind_bind {A B} (c : M proc A) (k : A -> M proc B) :
  log_blind c -> (forall a, log_blind (k a)) -> log_blind (bind c k).
Proof.
  intros Hc Hk o l1 l2. unfold bind.
  destruct (Hc o l1 l2) as (r & o1 & evs & -> & ->).
  destruct r as [a|e].
  - destruct (Hk a o1 (l1 ++ evs) (l2 ++ evs)) as (r2 & o2 & evs2 & -> & ->).
    exists r2, o2, (evs ++ evs2). rewrite !app_assoc. auto.
  - exists (Raise e), o1, evs. auto.
Qed.

Lemma log_blind_getitem {A} (xs : list A) i : log_blind (getitem xs i).
Proof.
  unfold getitem. destruct (xs !! i); [apply log_blind_ret | apply log_blind_raise].
Qed.

Lemma log_blind_subscript {K V} (table : K -> option V) k :
  log_blind (subscript table k).
Proof.
  unfold subscript. destruct (table k); [apply log_blind_ret | apply log_blind_raise].
Qed.

Lemma log_blind_call_attack i img lbl pos : log_blind (call_attack i img lbl pos).
Proof.
  intros o l1 l2. unfold call_attack. cbn [orc log].
  destruct (attack img lbl pos o) as [r o'].
  exists (Ok r), o', [EvAttack i (snd (fst r)) (snd r)]. auto.
Qed.

Lemma log_blind_for_each {A B} (body : B -> A -> M proc B) xs acc :
  (forall acc x, log_blind (body acc x)) -> log_blind (for_each body xs acc).
Proof.
  intros Hb. revert acc. induction xs as [|x xs IH]; intros acc; cbn [for_each].
  - apply log_blind_ret.
  - apply log_blind_bind; [apply Hb | exact IH].
Qed.

(** Lines 42-54 read the images, the labels, the masks and the oracle of
    the attack; nothing of what the run did before. *)
Lemma log_blind_evaluate G images labels : log_blind (evaluate G images labels).
Proof.
  unfold evaluate, attack_loop.
  apply log_blind_bind; [|intros acc; apply log_blind_lift].
  apply log_blind_for_each. intros acc i. unfold attack_step.
  apply log_blind_bind; [apply log_blind_getitem | intros lbl].
  apply log_blind_bind; [apply log_blind_getitem | intros img].
  apply log_blind_bind; [apply log_blind_subscript | intros m].
  destruct (Qle_bool 120 (brightness img m)); [|apply log_blind_ret].
  apply log_blind_bind; [apply log_blind_getitem | intros img'].
  apply log_blind_bind; [apply log_blind_getitem | intros lbl'].
  apply log_blind_bind; [apply log_blind_subscript | intros pos].
  apply log_blind_bind; [apply log_blind_call_attack | intros r].
  apply log_blind_ret.
Qed.

End Log_blind.

(** The cases of a membership in a list given by its entries. *)
Ltac membership_cases D :=
  repeat first [apply elem_of_cons in D as [D|D] | apply elem_of_app in D as [D|D]];
  try discriminate D;
  try (exfalso; apply elem_of_nil in D; exact D).

(** Lines 28-62 once the checkpoint has loaded. *)
Lemma test_regime_a_from_run `{Env} (G : test_globals) (testing_dataset : string)
    (dev : device) (f : string) (sd : state_dict) (st : proc) :
  torch_load f = Ok sd -> load_state_dict sd = Ok tt ->
  test_regime_a_from G testing_dataset dev f st =
    let s0 := {| orc := orc st;
                 log := log st ++ [EvModel; EvTorchLoad f;
                                   EvReadDataset testing_dataset] |} in
    match pickle_load testing_dataset with
    | Raise e => (Raise e, s0)
    | Ok data =>
        match evaluate G (fst data) (snd data) s0 with
        | (Raise e, s1) => (Raise e, s1)
        | (Ok rep, s1) =>
            let shown := [EvPrint "Attack robustness: " (Some (robustness rep));
                          EvPrint "Average queries: " (Some (avg_queries rep))] in
            match open_wb (results_path f) with
            | Raise e => (Raise e, {| orc := orc s1; log := log s1 ++ shown |})
            | Ok _ =>
                (Ok tt, {| orc := orc s1;
                           log := log s1 ++ shown ++ [EvDump (results_path f) rep] |})
            end
        end
    end.
Proof.
  intros Hl Hs. cbn zeta. unfold test_regime_a_from.
  unfold bind at 1, emit at 1. unfold bind at 1, emit at 1. cbn [orc log].
  unfold bind at 1, lift at 1. rewrite Hl.
  unfold bind at 1, lift at 1. rewrite Hs.
  unfold bind at 1, emit at 1. cbn [orc log]. rewrite <- !app_assoc. cbn [app].
  unfold bind at 1, lift at 1.
  destruct (pickle_load testing_dataset) as [data|e]; [|reflexivity].
  unfold bind at 1.
  destruct (evaluate G (fst data) (snd data) _) as [[rep|e] s1]; [|reflexivity].
  unfold bind, emit, lift. cbn [orc log].
  destruct (open_wb (results_path f)) as [[]|e]; rewrite <- !app_assoc; reflexivity.
Qed.

(** X14: the model that lines 28-36 build and load is not among the
    arguments of [attack] on line 47.  Two runs of regime A from the same
    state that load different checkpoints make the same calls of [attack]
    with the same outcomes, print the same two numbers and leave the
    attack's oracle in the same state; if both write a report, it is the
    same report under two names. *)
Theorem checkpoint_plays_no_part `{Env} (G : test_globals)
    (testing_dataset : string) (dev : device) (f1 f2 : string)
    (sd1 sd2 : state_dict) (st : proc) :
  torch_load f1 = Ok sd1 -> load_state_dict sd1 = Ok tt ->
  torch_load f2 = Ok sd2 -> load_state_dict sd2 = Ok tt ->
  exists evs1 evs2,
    log (snd (test_regime_a_from G testing_dataset dev f1 st)) = log st ++ evs1
    /\ log (snd (test_regime_a_from G testing_dataset dev f2 st)) = log st ++ evs2
    /\ attacks evs1 = attacks evs2
    /\ prints evs1 = prints evs2
    /\ orc (snd (test_regime_a_from G testing_dataset dev f1 st))
       = orc (snd (test_regime_a_from G testing_dataset dev f2 st))
    /\ (forall p1 p2 r1 r2,
          EvDump p1 r1 ∈ evs1 -> EvDump p2 r2 ∈ evs2 ->
          r1 = r2 /\ p1 = results_path f1 /\ p2 = results_path f2).
Proof.
  intros L1 S1 L2 S2.
  rewrite (test_regime_a_from_run G testing_dataset dev f1 sd1 st L1 S1).
  rewrite (test_regime_a_from_run G testing_dataset dev f2 sd2 st L2 S2).
  cbn zeta.
  destruct (pickle_load testing_dataset) as [data|e].
  2: { eexists _, _. cbn [snd log orc]. split; [reflexivity|]. split; [reflexivity|].
       split; [reflexivity|]. split; [reflexivity|]. split; [reflexivity|].
       intros p1 p2 r1 r2 D.
       repeat (apply elem_of_cons in D as [D|D]; [discriminate|]). inversion D. }
  destruct (evaluate_log G (fst data) (snd data)
              {| orc := orc st;
                 log := log st ++ [EvModel; EvTorchLoad f1;
                                   EvReadDataset testing_dataset] |})
    as (evs' & Hevs' & Fatk).
  destruct (log_blind_evaluate G (fst data) (snd data) (orc st)
              (log st ++ [EvModel; EvTorchLoad f1; EvReadDataset testing_dataset])
              (log st ++ [EvModel; EvTorchLoad f2; EvReadDataset testing_dataset]))
    as (r & o' & evs & E1 & E2).
  rewrite E1 in Hevs'. cbn [snd log] in Hevs'. apply app_inv_head in Hevs'. subst evs'.
  rewrite E1, E2. clear E1 E2.
  assert (Hnd : forall p rep, EvDump p rep ∉ evs).
  { intros p rep Hin. rewrite Forall_forall in Fatk. exact (Fatk _ Hin). }
  destruct r as [rep|e].
  - destruct (open_wb (results_path f1)) as [[]|e1];
      destruct (open_wb (results_path f2)) as [[]|e2];
      cbn [snd log orc]; rewrite <- !app_assoc;
      (eexists _, _; split; [reflexivity|]; split; [reflexivity|]);
      unfold attacks, prints; rewrite !omap_app; cbn [omap list_omap app];
      (split; [reflexivity|]; split; [reflexivity|]; split; [reflexivity|]);
      intros p1 p2 r1 r2 D1 D2;
      membership_cases D1; try (exfalso; exact (Hnd _ _ D1));
      membership_cases D2; try (exfalso; exact (Hnd _ _ D2));
      injection D1 as <- <-; injection D2 as <- <-; auto.
  - cbn [snd log orc]. rewrite <- !app_assoc.
    eexists _, _. split; [reflexivity|]. split; [reflexivity|].
    unfold attacks, prints. rewrite !omap_app. cbn [omap list_omap app].
    split; [reflexivity|]. split; [reflexivity|]. split; [reflexivity|].
    intros p1 p2 r1 r2 D1 D2.
    membership_cases D1. exfalso. exact (Hnd _ _ D1).
Qed.

(** ** [train_model], line by line *)

Section Train_model_runs.
Context `{RngLaws} `{!Torch} `{!TorchLaws}.

#[local] Abbreviation no_save := (fun ev : train_event => ~ is_save ev).

Lemma no_save_batches (bs : list (list nat)) : Forall no_save (TrBatch <$> bs).
Proof. induction bs; constructor; [cbn; tauto | assumption]. Qed.

(** Lines 39-44, as [train_setup] needs them. *)
Lemma train_split_run num_train data_fraction g :
  exists r g',
    train_split num_train data_fraction g = (r, g')
    /\ match r with
       | Ok (train_idx, real_num) =>
           real_num = length train_idx
           /\ NoDup train_idx
           /\ (forall i, i ∈ train_idx -> (i < num_train)%nat)
           /\ ((0 <= data_fraction)%Q ->
               (double (double data_fraction * float_of_len num_train) < 1)%Q ->
               train_idx = [])
       | Raise e => e = OverflowError
       end.
Proof.
  unfold train_split, bind, np_shuffle.
  pose proof (shuffle_perm (seq 0 num_train) g) as Hp.
  destruct (shuffle (seq 0 num_train) g) as [l g']. cbn [fst snd] in *.
  set (product := double (double data_fraction * float_of_len num_train)).
  destruct (overflows product); [eexists _, _; split; reflexivity|].
  unfold ret. set (split := Qfloor product).
  destruct (slice_to_take l split) as (k & Hk & Hkl & Hkz).
  eexists _, _. split; [reflexivity|]. cbn beta iota.
  split; [reflexivity|]. rewrite Hk. split; [|split].
  - apply NoDup_take. rewrite Hp. apply NoDup_seq.
  - intros i Hi. apply subseteq_take in Hi. rewrite Hp in Hi.
    apply elem_of_seq in Hi. lia.
  - intros Hlo Hsmall.
    assert (0 <= split).
    { unfold split. rewrite <- (Qfloor_Z 0). apply Qfloor_resp_le.
      apply double_nonneg. apply Qmult_le_0_compat.
      - apply double_nonneg. exact Hlo.
      - apply double_nonneg. change 0%Q with (inject_Z 0). rewrite <- Zle_Qle. lia. }
    assert (split < 1).
    { pose proof (Qfloor_le product) as F. fold split in F.
      assert (L : (inject_Z split < inject_Z 1)%Q)
        by (eapply Qle_lt_trans; [exact F | exact Hsmall]).
      rewrite <- Zlt_Qlt in L. exact L. }
    assert (k = 0%nat) by (destruct (Z.leb_spec 0 split); lia).
    subst k. reflexivity.
Qed.

(** Lines 67-74 over the batches of a pass. *)
Lemma train_batches_run (bs : list (list nat)) acc loss n st :
  match for_each train_on_batch bs (acc, loss, n) st with
  | (Ok sums, st') =>
      shown st' = shown st ++ (TrBatch <$> bs)
      /\ (bs = [] -> sums = (acc, loss, n))
      /\ (bs <> [] -> exists x, fst (fst sums) = Tensor x)
      /\ exists correct,
           0 <= correct <= Z.of_nat (length (concat bs))
           /\ (number_value (fst (fst sums)) == number_value acc + inject_Z correct)%Q
  | (Raise e, st') =>
      exists k, (k < length bs)%nat /\ shown st' = shown st ++ (TrBatch <$> take k bs)
  end.
Proof.
  revert acc loss n st. induction bs as [|b bs IH]; intros acc loss n st.
  - cbn. rewrite app_nil_r. split; [reflexivity|]. split; [reflexivity|].
    split; [congruence|]. exists 0. split; [lia|]. cbn. ring.
  - cbn [for_each]. unfold bind at 1. unfold train_on_batch at 1.
    unfold bind at 1, with_world at 1.
    destruct (train_batch b (torch_world st)) as [[r|e] w] eqn:Hb.
    2: { exists 0%nat. cbn. rewrite app_nil_r. split; [lia | reflexivity]. }
    pose proof (train_batch_correct _ _ _ _ Hb) as Hc.
    unfold bind at 1, tr_emit at 1, ret at 1. cbn [np_rng torch_world shown fst snd].
    match goal with |- context [for_each train_on_batch bs (?a, ?l, ?m) ?s] =>
      specialize (IH a l m s);
      destruct (for_each train_on_batch bs (a, l, m) s) as [[sums|e] st'] end.
    + destruct IH as (L & Hnil & Hcons & correct & Hcorrect & Hval). cbn [shown] in L.
      split; [rewrite L, <- app_assoc; reflexivity|].
      split; [discriminate|]. split.
      * intros _. destruct bs as [|b' bs'].
        -- rewrite (Hnil eq_refl). cbn [fst]. unfold iadd_tensor. eauto.
        -- apply Hcons. discriminate.
      * exists (fst r + correct). split.
        -- cbn [concat]. rewrite length_app. lia.
        -- rewrite Hval. cbn [number_value iadd_tensor]. rewrite inject_Z_plus. ring.
    + destruct IH as (k & Hk & L). cbn [shown] in L.
      exists (Datatypes.S k). cbn [length take fmap list_fmap]. split; [lia|].
      rewrite L, <- app_assoc. reflexivity.
Qed.

Lemma batches_nil (bs : list (list nat)) idx :
  Permutation (concat bs) idx ->
  Forall (fun b => (0 < length b <= 64)%nat) bs ->
  (bs = [] <-> idx = []).
Proof.
  intros Hp Hne. split.
  - intros ->. cbn in Hp. apply Permutation_nil. exact Hp.
  - intros ->. apply Permutation_sym, Permutation_nil in Hp.
    destruct bs as [|b bs]; [reflexivity|].
    apply Forall_cons in Hne as [Hb _]. destruct b; cbn in *; [lia | discriminate].
Qed.

(** Lines 61-79: one epoch over the examples of [train_idx]. *)
Lemma train_epoch_run train_idx epoch st :
  match train_epoch train_idx (length train_idx) epoch st with
  | (Ok _, st') =>
      train_idx <> []
      /\ exists batches acc loss,
           shown st' = shown st ++ epoch_events epoch batches acc loss
           /\ Permutation (concat batches) train_idx
           /\ (0 <= acc /\ acc <= 1)%Q
  | (Raise e, st') =>
      exists evs,
        shown st' = shown st ++ TrPrint ("NOW AT: Epoch " +:+ pretty epoch) None :: evs
        /\ Forall no_save evs
        /\ (train_idx = [] -> e = ZeroDivisionError /\ evs = [])
  end.
Proof.
  unfold train_epoch.
  unfold bind at 1, tr_emit at 1. unfold bind at 1, with_world at 1.
  cbn [np_rng torch_world shown].
  destruct (dataloader_batches train_idx (torch_world st)) as [Hperm Hsize].
  destruct (dataloader train_idx (torch_world st)) as [bs w]. cbn [fst snd] in *.
  pose proof (batches_nil bs train_idx Hperm Hsize) as Hnil.
  unfold bind at 1.
  match goal with |- context [for_each train_on_batch bs (?a, ?l, ?m) ?s] =>
    pose proof (train_batches_run bs a l m s) as B;
    destruct (for_each train_on_batch bs (a, l, m) s) as [[sums|e] st1] end.
  - destruct B as (L & Bnil & Bcons & correct & Hcorrect & Hval).
    cbn [shown] in L.
    destruct bs as [|b bs'].
    + rewrite (Bnil eq_refl). cbn [fst snd].
      assert (E : train_idx = []) by (apply Hnil; reflexivity).
      rewrite E. cbn. exists []. rewrite L. cbn. rewrite app_nil_r.
      split; [reflexivity|]. split; [constructor | auto].
    + destruct (Bcons ltac:(discriminate)) as [x Hx].
      assert (Hne : train_idx <> []).
      { intros E. apply Hnil in E. discriminate. }
      assert (Hpos : (0 < inject_Z (Z.of_nat (length train_idx)))%Q).
      { rewrite <- (Zlt_Qlt 0). destruct train_idx; [contradiction | cbn; lia]. }
      unfold bind at 1, lift at 1. rewrite Hx. cbn [div_int].
      unfold bind at 1, tr_emit at 1. cbn [np_rng torch_world shown].
      unfold bind at 1, lift at 1.
      assert (Ediv : forall y, truediv y (length train_idx)
                               = Ok (double (y / float_of_len (length train_idx)))).
      { intros y. destruct train_idx; [contradiction | reflexivity]. }
      rewrite Ediv. unfold tr_emit. cbn [np_rng torch_world shown].
      split; [exact Hne|]. eexists (b :: bs'), _, _. split; [|split; [exact Hperm|]].
      * rewrite L. unfold epoch_events. rewrite <- !app_assoc. reflexivity.
      * rewrite Hx in Hval. cbn [number_value] in Hval.
        rewrite (Permutation_length Hperm) in Hcorrect.
        apply py_round_unit.
        -- apply Qle_shift_div_l; [exact Hpos|].
           rewrite Hval. rewrite Qmult_0_l, Qplus_0_l.
           change (inject_Z 0 <= inject_Z correct)%Q. rewrite <- Zle_Qle. lia.
        -- apply Qle_shift_div_r; [exact Hpos|].
           rewrite Hval. rewrite Qmult_1_l, Qplus_0_l. rewrite <- Zle_Qle. lia.
  - destruct B as (k & Hk & L). cbn [shown] in L.
    exists (TrBatch <$> take k bs). rewrite L, <- app_assoc.
    split; [reflexivity|]. split; [apply no_save_batches|].
    intros E. apply Hnil in E. subst bs. cbn in Hk. lia.
Qed.

Lemma no_save_epoch epoch batches acc loss :
  Forall no_save (epoch_events epoch batches acc loss).
Proof.
  unfold epoch_events. constructor; [cbn; tauto|].
  apply Forall_app. split; [apply no_save_batches|].
  repeat constructor; cbn; tauto.
Qed.

(** Line 60: the epochs [first], ..., [first + count - 1]. *)
Lemma train_epochs_run train_idx first count st :
  match for_each (fun (_ : unit) epoch => train_epoch train_idx (length train_idx) epoch)
                 (seq first count) tt st with
  | (Ok _, st') =>
      (count = 0%nat \/ train_idx <> [])
      /\ exists epochs : list (list train_event),
           length epochs = count
           /\ shown st' = shown st ++ concat epochs
           /\ forall k ep, epochs !! k = Some ep ->
                exists batches acc loss,
                  ep = epoch_events (first + k) batches acc loss
                  /\ Permutation (concat batches) train_idx
                  /\ (0 <= acc /\ acc <= 1)%Q
  | (Raise e, st') =>
      exists evs,
        shown st' = shown st ++ evs
        /\ Forall no_save evs
        /\ (train_idx = [] ->
            e = ZeroDivisionError
            /\ evs = [TrPrint ("NOW AT: Epoch " +:+ pretty first) None])
  end.
Proof.
  revert first st. induction count as [|count IH]; intros first st.
  - cbn. split; [auto|]. exists []. cbn. rewrite app_nil_r.
    split; [reflexivity|]. split; [reflexivity|]. intros k ep Hk. discriminate.
  - cbn [seq for_each]. unfold bind at 1.
    pose proof (train_epoch_run train_idx first st) as E.
    destruct (train_epoch train_idx (length train_idx) first st) as [[[]|e] st1].
    + destruct E as (Hne & bs & acc & loss & L & Hperm & Hacc).
      specialize (IH (Datatypes.S first) st1).
      destruct (for_each _ (seq (Datatypes.S first) count) tt st1) as [[u|e] st2].
      * destruct IH as (_ & epochs & Hlen & L2 & Heps).
        split; [auto|]. exists (epoch_events first bs acc loss :: epochs).
        split; [cbn; lia|]. split.
        -- rewrite L2, L. cbn [concat]. rewrite app_assoc. reflexivity.
        -- intros [|k] ep Hk.
           ++ injection Hk as <-. rewrite Nat.add_0_r.
              exists bs, acc, loss. split; [reflexivity|]. split; assumption.
           ++ cbn in Hk. destruct (Heps k ep Hk) as (bs' & acc' & loss' & -> & P & A).
              exists bs', acc', loss'. rewrite Nat.add_succ_r. auto.
      * destruct IH as (evs & L2 & F & _).
        exists (epoch_events first bs acc loss ++ evs).
        split; [rewrite L2, L, app_assoc; reflexivity|].
        split; [apply Forall_app; split; [apply no_save_epoch | exact F]|].
        intros Hnil. contradiction.
    + destruct E as (evs & L & F & Hnil).
      exists (TrPrint ("NOW AT: Epoch " +:+ pretty first) None :: evs).
      split; [exact L|]. split; [constructor; [cbn; tauto | exact F]|].
      intros Hn. destruct (Hnil Hn) as [-> ->]. auto.
Qed.

(** Lines 50-88. *)
Lemma train_fit_run train_idx st :
  let banner := TrPrint "******** I'm training the AndrewNet Model Now! *****" None in
  match train_fit train_idx (length train_idx) st with
  | (Ok _, st') =>
      train_idx <> []
      /\ exists (epochs : list (list train_event)) w,
           let filename := checkpoint_filename (strftime_now w) in
           length epochs = 25%nat
           /\ shown st' = shown st ++ banner :: concat epochs
                            ++ [TrSave filename;
                                TrPrint ("Model saved to " +:+ filename +:+ "!") None]
           /\ torch_save filename w = Ok tt
           /\ forall k ep, epochs !! k = Some ep ->
                exists batches acc loss,
                  ep = epoch_events k batches acc loss
                  /\ Permutation (concat batches) train_idx
                  /\ (0 <= acc /\ acc <= 1)%Q
  | (Raise e, st') =>
      exists evs,
        shown st' = shown st ++ banner :: evs
        /\ Forall no_save evs
        /\ (train_idx = [] ->
            e = ZeroDivisionError
            /\ evs = [TrPrint ("NOW AT: Epoch " +:+ pretty 0%nat) None])
  end.
Proof.
  cbn zeta. unfold train_fit.
  unfold bind at 1, tr_emit at 1. unfold bind at 1, with_world at 1.
  cbn [np_rng torch_world shown]. unfold bind at 1.
  change (range num_epoch) with (seq 0 25).
  match goal with |- context [for_each ?body (seq 0 25) tt ?s] =>
    pose proof (train_epochs_run train_idx 0 25 s) as E;
    destruct (for_each body (seq 0 25) tt s) as [[u|e] st1] end.
  - destruct E as ([Hz|Hne] & epochs & Hlen & L & Heps); [discriminate|].
    cbn [shown] in L.
    unfold bind, with_world, tr_emit. cbn [np_rng torch_world shown].
    destruct (torch_save (checkpoint_filename (strftime_now (torch_world st1)))
                (torch_world st1)) as [[]|e] eqn:Hsave.
    + split; [exact Hne|]. exists epochs, (torch_world st1).
      split; [exact Hlen|]. split; [|split; [exact Hsave | exact Heps]].
      rewrite L, <- !app_assoc. reflexivity.
    + cbn [shown]. exists (concat epochs). rewrite L, <- app_assoc.
      split; [reflexivity|]. split.
      * apply Forall_concat. apply Forall_lookup. intros k ep Hk.
        destruct (Heps k ep Hk) as (bs & acc & loss & -> & _). apply no_save_epoch.
      * intros Hn. contradiction.
  - destruct E as (evs & L & F & Hnil). cbn [shown] in L.
    exists evs. rewrite L, <- app_assoc. auto.
Qed.

(** Lines 32-37 add to the log the four datasets they made. *)
Lemma train_datasets_run data st :
  exists evs,
    shown (snd (train_datasets data st)) = shown st ++ evs /\ Forall no_save evs.
Proof.
  unfold train_datasets. cbn [for_each]. unfold bind, with_world, tr_emit, ret.
  cbn [np_rng torch_world shown fst snd].
  repeat match goal with
         | |- context [predraw_dataset ?d ?a ?t ?w] =>
             destruct (predraw_dataset d a t w) as [[?|?] ?];
             cbn [np_rng torch_world shown fst snd]
         end;
    rewrite <- ?app_assoc;
    (eexists; split; [first [reflexivity | symmetry; apply app_nil_r]|]);
    repeat constructor; cbn; tauto.
Qed.

(** Lines 25-48. *)
Lemma train_setup_run a st :
  exists r st' evs,
    train_setup a st = (r, st')
    /\ shown st' = shown st ++ evs
    /\ Forall no_save evs
    /\ forall num_train train_idx real_num,
         r = Ok (num_train, train_idx, real_num) ->
         real_num = length train_idx
         /\ NoDup train_idx
         /\ (forall i, i ∈ train_idx -> (i < num_train)%nat)
         /\ ((0 <= data_fraction a)%Q ->
             (double (double (data_fraction a) * float_of_len num_train) < 1)%Q ->
             train_idx = []).
Proof.
  unfold train_setup. unfold bind at 1, lift at 1.
  destruct (load_train_data (train_dataset_location a)) as [data|e].
  2: { eexists _, _, []. split; [reflexivity|]. rewrite app_nil_r.
       split; [reflexivity|]. split; [constructor | discriminate]. }
  unfold bind at 1, tr_emit at 1. unfold bind at 1.
  match goal with |- context [train_datasets data ?s] =>
    destruct (train_datasets_run data s) as (evs & L & F);
    destruct (train_datasets data s) as [[num_train|e] st1] end;
    cbn [snd shown] in L.
  2: { eexists _, _, (TrPrint "Generating image datasets..." None :: evs).
       split; [reflexivity|]. rewrite L, <- app_assoc. split; [reflexivity|].
       split; [constructor; [cbn; tauto | exact F] | discriminate]. }
  unfold bind at 1, with_np at 1.
  destruct (train_split_run num_train (data_fraction a) (np_rng st1))
    as ([[train_idx rn]|e] & g' & Hs & Hr); rewrite Hs.
  2: { eexists _, _, (TrPrint "Generating image datasets..." None :: evs).
       split; [reflexivity|]. cbn [shown]. rewrite L, <- app_assoc.
       split; [reflexivity|].
       split; [constructor; [cbn; tauto | exact F] | discriminate]. }
  destruct Hr as (-> & Hnd & Hrange & Hempty).
  unfold bind, tr_emit, ret. cbn [np_rng torch_world shown fst snd].
  eexists _, _, (TrPrint "Generating image datasets..." None :: evs ++ [_]).
  split; [reflexivity|]. cbn [shown].
  rewrite L, <- !app_assoc. split; [reflexivity|]. split.
  - constructor; [cbn; tauto|]. apply Forall_app. split; [exact F|].
    repeat constructor; cbn; tauto.
  - intros nt idx rn E. injection E as <- <- <-. auto.
Qed.

End Train_model_runs.

(** X15: [train_model] with no example to train on.  [real_num] is the
    number of indices kept on line 43; it is 0 when the fraction of the data
    is not negative and the product of line 42, as the double Python
    computes, is below 1.  With [real_num] at 0 no batch runs, [acc] is
    still the float [0.0] on line 76 and [acc / real_num] divides by zero:
    the run stops in epoch 0 with a [ZeroDivisionError], having saved no
    checkpoint. *)
Theorem train_model_without_examples `{RngLaws} `{!Torch} `{!TorchLaws} (a : args)
    (st st1 : trainer) (num_train : nat) (train_idx : list nat) (real_num : nat) :
  train_setup a st = (Ok (num_train, train_idx, real_num), st1) ->
  real_num = length train_idx
  /\ ((0 <= data_fraction a)%Q ->
      (double (double (data_fraction a) * float_of_len num_train) < 1)%Q ->
      real_num = 0%nat)
  /\ (real_num = 0%nat ->
      train_idx = []
      /\ exists st2,
           train_model_lines a st = (Raise ZeroDivisionError, st2)
           /\ shown st2
              = shown st1
                  ++ [TrPrint "******** I'm training the AndrewNet Model Now! *****" None;
                      TrPrint "NOW AT: Epoch 0" None]
           /\ exists evs,
                shown st2 = shown st ++ evs /\ Forall (fun ev => ~ is_save ev) evs).
Proof.
  intros Hsetup.
  destruct (train_setup_run a st) as (r & st' & evs & E & L & F & Hr).
  rewrite Hsetup in E. injection E as <- <-.
  destruct (Hr _ _ _ eq_refl) as (Hlen & _ & _ & Hempty).
  split; [exact Hlen|]. split.
  { intros Hlo Hsmall. rewrite Hlen, (Hempty Hlo Hsmall). reflexivity. }
  intros Hzero. rewrite Hzero in Hlen. symmetry in Hlen.
  apply length_zero_iff_nil in Hlen. subst train_idx real_num.
  split; [reflexivity|].
  unfold train_model_lines. rewrite (bind_ok _ _ _ _ _ Hsetup). cbn [fst snd length].
  pose proof (train_fit_run [] st1) as R. cbn zeta in R. cbn [length] in R.
  destruct (train_fit [] 0 st1) as [[u|e] st2].
  - destruct R as [Hne _]. contradiction.
  - destruct R as (evs2 & L2 & F2 & Hnil).
    destruct (Hnil eq_refl) as [-> ->].
    exists st2. split; [reflexivity|]. split; [exact L2|].
    exists (evs ++ [TrPrint "******** I'm training the AndrewNet Model Now! *****" None;
                    TrPrint "NOW AT: Epoch 0" None]).
    split; [rewrite L2, L, <- app_assoc; reflexivity|].
    apply Forall_app. split; [exact F|]. repeat constructor; cbn; tauto.
Qed.


(** ** The further properties at work on the replayed runs *)

Lemma concat_singletons (idx : list nat) : concat ((fun i => [i]) <$> idx) = idx.
Proof. induction idx as [|i idx IH]; [reflexivity|]. cbn. f_equal. exact IH. Qed.

#[local] Instance replay_torch_laws : @TorchLaws replay_torch.
Proof.
  split.
  - intros idx w. cbn [dataloader replay_torch fst]. split.
    + rewrite concat_singletons. reflexivity.
    + apply Forall_fmap, Forall_true. intros i. cbn. lia.
  - intros b w r w' E. cbn in E. injection E as <- _. cbn [fst]. lia.
Qed.

(** X2 on two images and no copy, under the shuffle. *)
Lemma gen_extra_data_no_copies_sample :
  fst (@gen_extra_data replay_cv [[10]; [20]] [] 0 0 0 0 1 false swap_tape) = Ok ([], []).
Proof.
  apply (@gen_extra_data_no_copies replay_cv replay_rng_laws [[10]; [20]] [] 0 0 0 0 1
           false swap_tape).
  lia.
Defined.

(** X3 on two images and one label. *)
Lemma gen_extra_data_missing_label_sample :
  fst (@gen_extra_data replay_cv [[10]; [20]] [7] 3 0 0 0 0 false swap_tape)
    = Raise IndexError.
Proof.
  apply (@gen_extra_data_missing_label replay_cv replay_rng_laws [[10]; [20]] [7] 3 0 0 0
           0 false swap_tape).
  - lia.
  - cbn. lia.
Defined.


(** X5 on a [TEST_B] command line. *)
Lemma TEST_B_and_TEST_C_are_not_defined_sample :
  @main (replay_env test_b_scenario)
    (@test_module (replay_env test_b_scenario) (sample_globals test_b_scenario))
    ["TEST_B"] (sample_proc test_b_scenario)
  = (Raise AttributeError,
     @Build_proc (replay_env test_b_scenario) [(true, 5); (false, 7)]
       ([] ++ [EvParseArgs; EvDispatch TEST_B])).
Proof.
  apply (@TEST_B_and_TEST_C_are_not_defined (replay_env test_b_scenario)
           (sample_globals test_b_scenario) ["TEST_B"] test_b_args
           (sample_proc test_b_scenario)).
  - reflexivity.
  - left. reflexivity.
Defined.

(** X8 on the four sample images: one attack of two succeeds. *)
Lemma report_within_bounds_sample :
  let r := {| robustness := double (1 - py_round (double (1 / 4)) 4);
              avg_queries := py_round (double (double 12 / double 4)) 4 |} in
  (0 <= robustness r /\ robustness r <= 1)%Q.
Proof.
  cbv zeta.
  apply (@report_within_bounds (replay_env sample_scenario)
           (sample_globals sample_scenario) [100; 130; 119; 120] [0; 1; 2; 3]
           (sample_proc sample_scenario)
           (@Build_proc (replay_env sample_scenario) []
              [EvAttack 1 true 5; EvAttack 3 false 7])).
  reflexivity.
Defined.

(** X10 on the name under which [train_model] saved on 6 May 2023, from
    the directory that holds [./checkpoints/]: the checkpoint loads, and the
    bare name would not. *)
Lemma explicit_checkpoint_is_loaded_as_given_sample :
  @torch_load (replay_env stored_scenario) "model_2023-05-06_07-08-09_25.pth"
    = Raise OSError
  /\ exists r st' evs,
       @test_regime_a (replay_env stored_scenario) (sample_globals stored_scenario)
         "./dataset/GTSRB/test.pkl" tt
         (Some "./checkpoints/model_2023-05-06_07-08-09_25.pth")
         (sample_proc stored_scenario) = (r, st')
       /\ @log (replay_env stored_scenario) st'
          = ([] ++ [EvModel;
                    EvTorchLoad "./checkpoints/model_2023-05-06_07-08-09_25.pth"])
              ++ evs
       /\ Forall (fun ev => ~ is_listdir ev) evs.
Proof.
  split; [reflexivity|].
  destruct (@explicit_checkpoint_is_loaded_as_given (replay_env stored_scenario)
              (sample_globals stored_scenario) "./dataset/GTSRB/test.pkl" tt
              "./checkpoints/model_2023-05-06_07-08-09_25.pth"
              (sample_proc stored_scenario))
    as (_ & _ & Hload & _); [discriminate|].
  destruct (Hload tt eq_refl) as (r & st' & evs & E & L & F & _).
  exists r, st', evs. split; [exact E|]. split; [exact L | exact F].
Defined.

(** X11 on the test set without images. *)
Lemma empty_test_set_divides_by_zero_sample :
  @test_regime_a_from (replay_env no_images_scenario) (sample_globals no_images_scenario)
    "./dataset/GTSRB/test.pkl" tt "model_2023-05-06_07-08-09_25.pth"
    (sample_proc no_images_scenario)
  = (Raise ZeroDivisionError,
     @Build_proc (replay_env no_images_scenario) [(true, 5); (false, 7)]
       ([] ++ [EvModel; EvTorchLoad "model_2023-05-06_07-08-09_25.pth";
               EvReadDataset "./dataset/GTSRB/test.pkl"])).
Proof.
  apply (@empty_test_set_divides_by_zero (replay_env no_images_scenario)
           (sample_globals no_images_scenario) "./dataset/GTSRB/test.pkl" tt
           "model_2023-05-06_07-08-09_25.pth" [0; 1] tt (sample_proc no_images_scenario));
    reflexivity.
Defined.

(** X12 on the three sample checkpoints. *)
Lemma latest_checkpoint_is_latest_timestamp_sample :
  exists now,
    now ∈ ["2023-01-02_03-04-05"; "2023-05-06_07-08-09"; "2022-11-12_13-14-15"]
    /\ @resolve_checkpoint (replay_env sample_scenario) None (sample_proc sample_scenario)
       = (Ok ("model_" +:+ now +:+ "_25.pth"),
          @Build_proc (replay_env sample_scenario) [(true, 5); (false, 7)]
            ([] ++ [EvListdir "./checkpoints/"])).
Proof.
  destruct (@latest_checkpoint_is_latest_timestamp (replay_env sample_scenario)
              ["2023-01-02_03-04-05"; "2023-05-06_07-08-09"; "2022-11-12_13-14-15"]
              sample_listing 19 (sample_proc sample_scenario))
    as (now & Hin & _ & _ & E & _).
  - reflexivity.
  - reflexivity.
  - intros now Hin.
    repeat (apply elem_of_cons in Hin as [->|Hin]; [reflexivity|]). inversion Hin.
  - discriminate.
  - exists now. split; [exact Hin | exact E].
Defined.


(** Line 42 in doubles: [0.7 * 20] is 14 and fourteen examples are kept;
    [0.29 * 100] is below 29 and twenty-eight are; the double next to 1/12,
    times 12, is 1 and one example is kept. *)
Lemma train_split_in_doubles :
  fst (@train_split replay_cv 20 (7 # 10) blank_tape) = Ok (seq 0 14, 14%nat)
  /\ fst (@train_split replay_cv 100 (29 # 100) blank_tape) = Ok (seq 0 28, 28%nat)
  /\ fst (@train_split replay_cv 12 (1 # 12) blank_tape) = Ok ([0%nat], 1%nat).
Proof. repeat split; vm_compute; reflexivity. Qed.

(** X14 on two of the sample checkpoints. *)
Lemma checkpoint_plays_no_part_sample :
  exists evs1 evs2,
    @log (replay_env sample_scenario)
      (snd (@test_regime_a_from (replay_env sample_scenario)
              (sample_globals sample_scenario) "./dataset/GTSRB/test.pkl" tt
              "model_2023-01-02_03-04-05_25.pth" (sample_proc sample_scenario)))
    = [] ++ evs1
    /\ @log (replay_env sample_scenario)
         (snd (@test_regime_a_from (replay_env sample_scenario)
                 (sample_globals sample_scenario) "./dataset/GTSRB/test.pkl" tt
                 "model_2023-05-06_07-08-09_25.pth" (sample_proc sample_scenario)))
       = [] ++ evs2
    /\ attacks evs1 = attacks evs2
    /\ prints evs1 = prints evs2.
Proof.
  destruct (@checkpoint_plays_no_part (replay_env sample_scenario)
              (sample_globals sample_scenario) "./dataset/GTSRB/test.pkl" tt
              "model_2023-01-02_03-04-05_25.pth" "model_2023-05-06_07-08-09_25.pth"
              tt tt (sample_proc sample_scenario))
    as (evs1 & evs2 & L1 & L2 & A & P & _); try reflexivity.
  exists evs1, evs2. auto.
Defined.

(** X15 on [-d 0]: twelve examples in the four datasets, none used. *)
Lemma train_model_without_examples_sample :
  exists st2,
    @train_model_lines replay_cv replay_torch no_data_args (sample_trainer blank_tape)
      = (Raise ZeroDivisionError, st2).
Proof.
  destruct (@train_model_without_examples replay_cv replay_rng_laws replay_torch
              replay_torch_laws no_data_args (sample_trainer blank_tape)
              (snd (@train_setup replay_cv replay_torch no_data_args
                      (sample_trainer blank_tape)))
              12 [] 0)
    as (_ & _ & W).
  - reflexivity.
  - destruct (W eq_refl) as (_ & st2 & E & _). exists st2. exact E.
Defined.

